(** * rest_client: signer, result stream and dispatcher

    A shallow embedding of [rest_client.go] and [app_client.go]
    (package [rest_client]) together with the parts of the Go standard
    library the package calls ([crypto/md5], [net/url], [fmt], [sort]) and
    of [gjson], followed by the properties of the package. *)

From Stdlib Require Import ZArith String Ascii List Lia.
From stdpp Require Import base option list sorting gmap strings.

Local Open Scope string_scope.
Local Open Scope list_scope.

(** ** Go strings

    A Go [string] is a sequence of bytes; so is a Rocq [string].  [len(s)] is
    the number of bytes. *)

Definition len (s : string) : Z := Z.of_nat (String.length s).

(** String literals that hold quotation marks are written with apostrophes
    in their place: [quoted] puts the quotation marks (byte 34) back. *)
Fixpoint quoted (s : string) : string :=
  match s with
  | EmptyString => EmptyString
  | String c rest =>
      String (if Ascii.eqb c "039"%char then "034"%char else c) (quoted rest)
  end.

Definition byte_of (c : ascii) : Z := Z.of_N (N_of_ascii c).

Definition bytes_of (s : string) : list Z := map byte_of (list_ascii_of_string s).

(** ** crypto/md5

    [md5.Sum] is the MD5 digest of RFC 1321, on 32-bit words held in [Z]
    with the wrap-around written out. *)

Module md5.
Local Open Scope Z_scope.

Definition w32 (x : Z) : Z := x mod 2 ^ 32.

Definition add32 (x y : Z) : Z := w32 (x + y).

Definition not32 (x : Z) : Z := w32 (Z.lnot x).

Definition rotl32 (x c : Z) : Z :=
  w32 (Z.lor (Z.shiftl x c) (Z.shiftr x (32 - c))).

(** The table [T[i] = floor (2^32 * |sin (i + 1)|)]. *)
Definition K : list Z :=
  [ 0xd76aa478; 0xe8c7b756; 0x242070db; 0xc1bdceee;
    0xf57c0faf; 0x4787c62a; 0xa8304613; 0xfd469501;
    0x698098d8; 0x8b44f7af; 0xffff5bb1; 0x895cd7be;
    0x6b901122; 0xfd987193; 0xa679438e; 0x49b40821;
    0xf61e2562; 0xc040b340; 0x265e5a51; 0xe9b6c7aa;
    0xd62f105d; 0x02441453; 0xd8a1e681; 0xe7d3fbc8;
    0x21e1cde6; 0xc33707d6; 0xf4d50d87; 0x455a14ed;
    0xa9e3e905; 0xfcefa3f8; 0x676f02d9; 0x8d2a4c8a;
    0xfffa3942; 0x8771f681; 0x6d9d6122; 0xfde5380c;
    0xa4beea44; 0x4bdecfa9; 0xf6bb4b60; 0xbebfbc70;
    0x289b7ec6; 0xeaa127fa; 0xd4ef3085; 0x04881d05;
    0xd9d4d039; 0xe6db99e5; 0x1fa27cf8; 0xc4ac5665;
    0xf4292244; 0x432aff97; 0xab9423a7; 0xfc93a039;
    0x655b59c3; 0x8f0ccc92; 0xffeff47d; 0x85845dd1;
    0x6fa87e4f; 0xfe2ce6e0; 0xa3014314; 0x4e0811a1;
    0xf7537e82; 0xbd3af235; 0x2ad7d2bb; 0xeb86d391 ].

(** Per-round left-rotation amounts. *)
Definition shifts : list Z :=
  [ 7; 12; 17; 22; 7; 12; 17; 22; 7; 12; 17; 22; 7; 12; 17; 22;
    5;  9; 14; 20; 5;  9; 14; 20; 5;  9; 14; 20; 5;  9; 14; 20;
    4; 11; 16; 23; 4; 11; 16; 23; 4; 11; 16; 23; 4; 11; 16; 23;
    6; 10; 15; 21; 6; 10; 15; 21; 6; 10; 15; 21; 6; 10; 15; 21 ].

Record state := State { sA : Z; sB : Z; sC : Z; sD : Z }.

Definition init : state :=
  State 0x67452301 0xefcdab89 0x98badcfe 0x10325476.

(** The auxiliary function and the message-word index of operation [i]. *)
Definition mix (i : Z) (b c d : Z) : Z * Z :=
  if i <? 16 then (Z.lor (Z.land b c) (Z.land (not32 b) d), i)
  else if i <? 32 then (Z.lor (Z.land d b) (Z.land (not32 d) c), (5 * i + 1) mod 16)
  else if i <? 48 then (Z.lxor (Z.lxor b c) d, (3 * i + 5) mod 16)
  else (Z.lxor c (Z.lor b (not32 d)), (7 * i) mod 16).

Definition word_at (l : list Z) (i : Z) : Z := nth (Z.to_nat i) l 0.

Definition step (M : list Z) (st : state) (i : Z) : state :=
  let '(State a b c d) := st in
  let '(f, g) := mix i b c d in
  let f' := add32 (add32 (add32 f a) (word_at K i)) (word_at M g) in
  State d (add32 b (rotl32 f' (word_at shifts i))) b c.

(** Little-endian decoding of a 64-byte block into sixteen words. *)
Fixpoint words_le (bs : list Z) : list Z :=
  match bs with
  | b0 :: b1 :: b2 :: b3 :: rest =>
      (b0 + Z.shiftl b1 8 + Z.shiftl b2 16 + Z.shiftl b3 24) :: words_le rest
  | _ => []
  end.

Definition block (st : state) (chunk : list Z) : state :=
  let M := words_le chunk in
  let '(State a b c d) := foldl (step M) st (map Z.of_nat (seq 0 64)) in
  State (add32 (sA st) a) (add32 (sB st) b) (add32 (sC st) c) (add32 (sD st) d).

Definition bytes_le (n : nat) (x : Z) : list Z :=
  map (fun k => Z.land (Z.shiftr x (8 * Z.of_nat k)) 0xff) (seq 0 n).

(** Padding: a [0x80] byte, zeros up to 56 modulo 64, then the bit length
    as a 64-bit little-endian integer. *)
Definition pad (msg : list Z) : list Z :=
  let n := Z.of_nat (length msg) in
  let zeros := Z.to_nat ((55 - n) mod 64) in
  msg ++ [0x80] ++ repeat 0 zeros ++ bytes_le 8 ((8 * n) mod 2 ^ 64).

Fixpoint blocks (fuel : nat) (st : state) (bs : list Z) : state :=
  match fuel, bs with
  | S fuel', _ :: _ => blocks fuel' (block st (firstn 64 bs)) (skipn 64 bs)
  | _, _ => st
  end.

(** [md5.Sum(data)]: the sixteen bytes of the digest. *)
Definition Sum (data : list Z) : list Z :=
  let p := pad data in
  let '(State a b c d) := blocks (length p) init p in
  bytes_le 4 a ++ bytes_le 4 b ++ bytes_le 4 c ++ bytes_le 4 d.

End md5.

(** ** fmt

    [fmt.Sprintf("%x", b)] for a byte array: two lowercase hexadecimal
    digits per byte. *)

Module fmt.

Definition ldigit (d : Z) : ascii :=
  nth (Z.to_nat d) (list_ascii_of_string "0123456789abcdef") "0"%char.

Fixpoint Sprintf_x (bs : list Z) : string :=
  match bs with
  | [] => ""
  | b :: rest =>
      String (ldigit (b / 16)%Z) (String (ldigit (b mod 16)%Z) (Sprintf_x rest))
  end.

End fmt.

(** ** sort and map iteration

    [sort.Sort(sort.StringSlice(keys))] and [sort.Strings] order a slice by
    Go's string comparison, which is byte-wise lexicographic: [String.le].
    For a total order the sorted arrangement of a slice is unique, so the
    library's algorithm is represented by [merge_sort]. *)

Definition sort_Strings (keys : list string) : list string :=
  merge_sort String.le keys.

(** A Go [for k := range m] visits every key of [m] once, in an order that
    the language leaves unspecified and that changes from run to run.  The
    functions below that range over a map take the visiting order as an
    argument; [map_range m ks] says that [ks] is such an order. *)

Definition map_range {V : Type} (m : gmap string V) (ks : list string) : Prop :=
  ks ≡ₚ elements (dom m).

(** One visiting order, used where a definite one is needed. *)
Definition map_keys {V : Type} (m : gmap string V) : list string :=
  elements (dom m).

(** [m[key]] on a [map[string]string]: the zero value when the key is absent. *)
Definition map_index (m : gmap string string) (key : string) : string :=
  default "" (m !! key).

(** ** net/url *)

Module url.

(** [url.Values] is [map[string][]string]. *)
Abbreviation Values := (gmap string (list string)).

Definition is_alnum (c : ascii) : bool :=
  let n := N_of_ascii c in
  ((97 <=? n) && (n <=? 122) || (65 <=? n) && (n <=? 90) ||
   (48 <=? n) && (n <=? 57))%N.

(** [shouldEscape(c, encodeQueryComponent)]: only the unreserved characters
    of RFC 3986 section 2.3 stay as they are. *)
Definition shouldEscape (c : ascii) : bool :=
  if is_alnum c then false
  else if bool_decide (c ∈ ["-"; "_"; "."; "~"]%char) then false
  else true.

Definition upperhex (d : N) : ascii :=
  nth (N.to_nat d) (list_ascii_of_string "0123456789ABCDEF") "0"%char.

(** [url.QueryEscape]. *)
Fixpoint QueryEscape (s : string) : string :=
  match s with
  | EmptyString => ""
  | String c rest =>
      if Ascii.eqb c " " then String "+" (QueryEscape rest)
      else if shouldEscape c then
        String "%" (String (upperhex (N_of_ascii c / 16))
                   (String (upperhex (N_of_ascii c mod 16)) (QueryEscape rest)))
      else String c (QueryEscape rest)
  end.

(** [v.Set(key, value)]. *)
Definition Values_Set (v : Values) (key value : string) : Values :=
  <[key := [value]]> v.

(** The inner loop of [Encode]: the values of one key appended to [buf]. *)
Definition encode_key (keyEscaped : string) (buf : string) (vs : list string) : string :=
  foldl (fun buf v =>
           (if decide (0 < len buf)%Z then buf +:+ "&" else buf)
             +:+ keyEscaped +:+ "=" +:+ QueryEscape v) buf vs.

(** [v.Encode()], with [iter] the order in which [range v] visits the keys. *)
Definition Values_Encode_in (iter : list string) (v : Values) : string :=
  let keys := sort_Strings iter in
  foldl (fun buf k => encode_key (QueryEscape k) buf (default [] (v !! k))) "" keys.

Definition Values_Encode (v : Values) : string :=
  Values_Encode_in (map_keys v) v.

End url.

(** ** app_client.go: the signer *)

(** The [reqParam] map of [AppRestParamSign].  [token] is a [*string]:
    [None] is the nil pointer. *)
Definition sign_reqParam (version appKey method timestamp content : string)
    (token : option string) : gmap string string :=
  let reqParam : gmap string string :=
    <["content" := content]> (<["timestamp" := timestamp]>
      (<["version" := version]> (<["app" := appKey]> ∅))) in
  let reqParam :=
    if decide (len method > 0)%Z then <["method" := method]> reqParam else reqParam in
  match token with
  | Some t => <["token" := t]> reqParam
  | None => reqParam
  end.

(** The [url.Values] filled from the sorted keys. *)
Definition sign_data_in (iter : list string) (reqParam : gmap string string) : url.Values :=
  let keys := sort_Strings iter in
  foldl (fun data key => url.Values_Set data key (map_index reqParam key)) ∅ keys.

(** [AppRestParamSign], with [iter1] the order in which [range reqParam]
    visits the keys and [iter2] the order in which [Encode] ranges over
    [data]. *)
Definition AppRestParamSign_in (iter1 iter2 : list string)
    (version appKey method timestamp content appSecret : string)
    (token : option string) : string :=
  let reqParam := sign_reqParam version appKey method timestamp content token in
  let data := sign_data_in iter1 reqParam in
  let reqData := url.Values_Encode_in iter2 data in
  let dataSign := md5.Sum (bytes_of (reqData +:+ appSecret)) in
  fmt.Sprintf_x dataSign.

(** The string that is hashed together with the secret. *)
Definition AppRestParamSign_reqData (version appKey method timestamp content : string)
    (token : option string) : string :=
  let reqParam := sign_reqParam version appKey method timestamp content token in
  url.Values_Encode (sign_data_in (map_keys reqParam) reqParam).

Definition AppRestParamSign (version appKey method timestamp content appSecret : string)
    (token : option string) : string :=
  let reqParam := sign_reqParam version appKey method timestamp content token in
  let data := sign_data_in (map_keys reqParam) reqParam in
  AppRestParamSign_in (map_keys reqParam) (map_keys data)
    version appKey method timestamp content appSecret token.

(** The (name, value) pairs [Encode] writes, in the order it writes them. *)
Definition Values_pairs (keys : list string) (v : url.Values) : list (string * string) :=
  keys ≫= (fun k => (fun x => (k, x)) <$> default [] (v !! k)).

Definition signed_fields (version appKey method timestamp content : string)
    (token : option string) : list (string * string) :=
  let reqParam := sign_reqParam version appKey method timestamp content token in
  let data := sign_data_in (map_keys reqParam) reqParam in
  Values_pairs (sort_Strings (map_keys data)) data.

(** [key=value] joined by [&], both sides query-escaped. *)
Definition encode_pair (kv : string * string) : string :=
  url.QueryEscape kv.1 +:+ "=" +:+ url.QueryEscape kv.2.

Definition encode_pairs (kvs : list (string * string)) : string :=
  String.concat "&" (encode_pair <$> kvs).

(** The buffer discipline of [Encode]: a separator before every piece but
    the first. *)
Definition write_piece (buf piece : string) : string :=
  (if decide (0 < len buf)%Z then buf +:+ "&" else buf) +:+ piece.

(** The value a caller passes for a canonical field name; [None] for a nil
    token and for any other name. *)
Definition input_field (version appKey method timestamp content : string)
    (token : option string) (name : string) : option string :=
  if decide (name = "app") then Some appKey
  else if decide (name = "version") then Some version
  else if decide (name = "timestamp") then Some timestamp
  else if decide (name = "content") then Some content
  else if decide (name = "method") then Some method
  else if decide (name = "token") then token
  else None.


(** ** Errors

    A Go [error] value is one of the package's two error structs, the
    sentinel [io.EOF], or an error made by a collaborator (encoding,
    transport, the capability object).  The nil error is [None]. *)

Record RestClientError := { rest_Msg : string; rest_Code : string }.

Record AppClientError := { Msg : string; Code : string; SubCode : string }.

Inductive error : Type :=
  | io_EOF
  | error_RestClient (e : RestClientError)
  | error_AppClient (e : AppClientError)
  | error_other (text : string).

#[global] Instance RestClientError_eq_dec : EqDecision RestClientError.
Proof. solve_decision. Defined.
#[global] Instance AppClientError_eq_dec : EqDecision AppClientError.
Proof. solve_decision. Defined.
#[global] Instance error_eq_dec : EqDecision error.
Proof. solve_decision. Defined.

Definition NewRestClientError (code msg : string) : error :=
  error_RestClient {| rest_Code := code; rest_Msg := msg |}.

Definition NewAppClientError (code subCode msg : string) : error :=
  error_AppClient {| Code := code; Msg := msg; SubCode := subCode |}.

(** The [Error()] method. *)
Definition Error (e : error) : string :=
  match e with
  | io_EOF => "EOF"
  | error_RestClient e => rest_Msg e
  | error_AppClient e => Msg e +:+ " [" +:+ Code e +:+ "]"
  | error_other text => text
  end.

(** ** Byte slices *)

Abbreviation bytes := (list ascii).

Definition blen (p : bytes) : Z := Z.of_nat (length p).

(** [l[lo:hi]]; out of range is a run-time panic, [None]. *)
Definition slice (l : bytes) (lo hi : Z) : option bytes :=
  if decide (0 ≤ lo ∧ lo ≤ hi ∧ hi ≤ blen l)%Z
  then Some (take (Z.to_nat (hi - lo)) (drop (Z.to_nat lo) l))
  else None.

(** [copy(dst, src)] where [dst] is the head [p[0:k]] of [p]: what [p]
    holds afterwards. *)
Definition copy_head (p : bytes) (k : Z) (src : bytes) : bytes :=
  let m := Z.to_nat (Z.min k (blen src)) in
  take m src ++ drop m p.

(** ** The observer

    [RestEvent] is the interface through which a call reports its progress.
    A call of one of its methods is a [Callback]. *)

Abbreviation http_Header := (gmap string (list string)).

Inductive Callback : Type :=
  | RequestStart (method url : string)
  | RequestRead (p : bytes)
  | ResponseHeader (HttpCode : Z) (header : option http_Header)
  | ResponseRead (p : bytes)
  | ResponseFinish (err : option error)
  | ResponseCheck (err : option error).

#[global] Instance Callback_eq_dec : EqDecision Callback.
Proof. solve_decision. Defined.

(** An interface value of type [RestEvent] that is not nil: the package's
    own [RestEventNoop], whose methods do nothing, or an observer supplied
    by the caller.  The nil interface is [None]. *)
Inductive RestEvent : Type :=
  | RestEventNoop
  | RestEventObserver.

Definition NewRestEventNoop : RestEvent := RestEventNoop.

Definition is_ResponseFinish (cb : Callback) : bool :=
  match cb with ResponseFinish _ => true | _ => false end.

(** ** Effects

    The package's code mutates an object it holds (a result, the channel of
    a call, the shared transport), calls the observer, and may panic or
    block.  [M St A] is a computation over a state [St] that yields the
    callbacks delivered to the caller's observer, in order, the state it
    leaves, and how it ends.  A panic carries a value, which is never nil
    (a run-time fault, or [panic(v)]; since Go 1.21 also [panic(nil)], which
    the run time replaces by an error of its own); [info] is that value as
    [%v] prints it. *)

Inductive Outcome (A : Type) : Type :=
  | Returns (a : A)
  | Panics (info : string)
  | Blocks.
Arguments Returns {A} a.
Arguments Panics {A} info.
Arguments Blocks {A}.

Definition M (St A : Type) : Type := St → list Callback * St * Outcome A.

Definition ret {St A : Type} (a : A) : M St A := fun s => ([], s, Returns a).

Definition bind {St A B : Type} (m : M St A) (k : A → M St B) : M St B :=
  fun s =>
    match m s with
    | (t, s', Returns a) =>
        match k a s' with (t', s'', o) => (t ++ t', s'', o) end
    | (t, s', Panics info) => (t, s', Panics info)
    | (t, s', Blocks) => (t, s', Blocks)
    end.

Notation "'let*' x ':=' m 'in' k" := (bind m (fun x => k))
  (at level 10, x name, m at level 100, k at level 200).
Notation "'let*' ' pat ':=' m 'in' k" := (bind m (fun pat => k))
  (at level 10, pat pattern, m at level 100, k at level 200).

Definition get {St : Type} : M St St := fun s => ([], s, Returns s).

Definition put {St : Type} (s : St) : M St unit := fun _ => ([], s, Returns tt).

Definition panic {St A : Type} (info : string) : M St A := fun s => ([], s, Panics info).

Definition block {St A : Type} : M St A := fun s => ([], s, Blocks).

(** A computation on a part of the state. *)
Definition zoom {St St' A : Type} (proj : St → St') (upd : St' → St → St)
    (m : M St' A) : M St A :=
  fun s => match m (proj s) with (t, s', o) => (t, upd s' s, o) end.

(** [defer func() { if info := recover(); info != nil { handler } }()]
    around [body]: a panic of [body] stops there and [handler] runs on the
    state the panic left. *)
Definition with_recover {St : Type} (body : M St unit) (handler : string → M St unit)
    : M St unit :=
  fun s =>
    match body s with
    | (t, s', Panics info) =>
        match handler info s' with (t', s'', o) => (t ++ t', s'', o) end
    | r => r
    end.

Definition nil_dereference : string :=
  "runtime error: invalid memory address or nil pointer dereference".

(** A method call [event.cb(...)] on an interface value. *)
Definition call {St : Type} (event : option RestEvent) (cb : Callback) : M St unit :=
  match event with
  | None => panic nil_dereference
  | Some RestEventNoop => ret tt
  | Some RestEventObserver => fun s => ([cb], s, Returns tt)
  end.

(** [if event != nil { event.cb(...) }]. *)
Definition call_if_set {St : Type} (event : option RestEvent) (cb : Callback) : M St unit :=
  match event with
  | None => ret tt
  | Some _ => call event cb
  end.

(** ** net/http responses

    The body of an [*http.Response] is a stream whose content and length
    the remote side decides.  It is given by what its remaining [Read]
    calls will produce: each step carries the bytes that arrive and the
    error reported with them ([None] for nil, [Some io_EOF] at the end). *)

Record ReadStep := { step_data : bytes; step_err : option error }.

Abbreviation Stream := (list ReadStep).

(** [Body.Read(p)]: at most [len(p)] bytes; what does not fit stays for the
    next call.  A stream with nothing left reports the end of data. *)
Definition Stream_Read (p : bytes) : M Stream (Z * option error * bytes) :=
  fun body =>
    match body with
    | [] => ([], [], Returns (0%Z, Some io_EOF, p))
    | st :: rest =>
        if decide (blen (step_data st) ≤ blen p)%Z then
          ([], rest,
           Returns (blen (step_data st), step_err st,
                    copy_head p (blen (step_data st)) (step_data st)))
        else
          let now := take (length p) (step_data st) in
          let later := drop (length p) (step_data st) in
          ([], {| step_data := later; step_err := step_err st |} :: rest,
           Returns (blen p, None, copy_head p (blen p) now))
    end.

Record Response := {
  StatusCode : Z;
  Header : option http_Header;
  Body : Stream
}.

(** ** rest_client.go: the result *)

Section result.
(** The type of the endpoint builders, values of interface [RestBuild]. *)
Context {B : Type}.

Record RestResult := {
  event : option RestEvent;
  build : option B;
  response : option Response;
  body : string;
  bodyReadOffset : Z;
  err : option error
}.

Definition set_err (e : option error) (res : RestResult) : RestResult :=
  {| event := event res; build := build res; response := response res;
     body := body res; bodyReadOffset := bodyReadOffset res; err := e |}.

Definition set_bodyReadOffset (off : Z) (res : RestResult) : RestResult :=
  {| event := event res; build := build res; response := response res;
     body := body res; bodyReadOffset := off; err := err res |}.

Definition set_response (r : option Response) (res : RestResult) : RestResult :=
  {| event := event res; build := build res; response := r;
     body := body res; bodyReadOffset := bodyReadOffset res; err := err res |}.

(** [NewRestResultFromError]. *)
Definition NewRestResultFromError {St : Type} (err : option error)
    (event : option RestEvent) : M St RestResult :=
  let result := {| event := event; build := None; bodyReadOffset := -1;
                   body := ""; err := err; response := None |} in
  let* _ := call_if_set event (ResponseFinish err) in
  ret result.

(** [NewRestResult]. *)
Definition NewRestResult {St : Type} (build : option B) (response : option Response)
    (event : option RestEvent) : M St RestResult :=
  let result := {| event := event; build := build; bodyReadOffset := -1;
                   body := ""; err := None; response := response |} in
  let* _ :=
    match event, response with
    | Some _, Some r => call event (ResponseHeader (StatusCode r) (Header r))
    | _, _ => ret tt
    end in
  ret result.

(** [NewRestBodyResult]. *)
Definition NewRestBodyResult {St : Type} (build : option B) (body : string)
    (response : option Response) (event : option RestEvent) : M St RestResult :=
  let result := {| event := event; build := build; bodyReadOffset := 0;
                   body := body; err := None; response := response |} in
  let* _ :=
    match event with
    | Some _ =>
        let* _ :=
          match response with
          | Some r => call event (ResponseHeader (StatusCode r) (Header r))
          | None => ret tt
          end in
        call event (ResponseFinish None)
    | None => ret tt
    end in
  ret result.

(** What [Read] hands back: the count, the error, and the caller's buffer
    as the call leaves it. *)
Record ReadRet := { read_n : Z; read_err : option error; read_p : bytes }.

(** The bytes a [Read] delivered: [p[0:n]]. *)
Definition delivered (r : ReadRet) : bytes := take (Z.to_nat (read_n r)) (read_p r).

(** [res.response.Body.Read(p)], on the response the result holds. *)
Definition response_Body_Read (r : Response) (p : bytes)
    : M RestResult (Z * option error * bytes) :=
  zoom (fun _ => Body r)
       (fun b res => set_response
          (Some {| StatusCode := StatusCode r; Header := Header r;
                   Body := b |}) res)
       (Stream_Read p).

(** [RestResult.Read]. *)
Definition Read (p : bytes) : M RestResult ReadRet :=
  let* res := get in
  match err res with
  | Some e => ret {| read_n := 0; read_err := Some e; read_p := p |}
  | None =>
      if decide (bodyReadOffset res >= 0)%Z then
        let bDat := list_ascii_of_string (body res) in
        let pLen := blen p in
        match slice bDat (bodyReadOffset res) (blen bDat) with
        | None => panic "runtime error: slice bounds out of range"
        | Some rest =>
            let sLen := blen rest in
            if decide (sLen = 0)%Z then
              ret {| read_n := 0; read_err := Some io_EOF; read_p := p |}
            else if decide (sLen > pLen)%Z then
              match slice bDat (bodyReadOffset res) (bodyReadOffset res + pLen) with
              | None => panic "runtime error: slice bounds out of range"
              | Some tmp =>
                  let* _ := put (set_bodyReadOffset (bodyReadOffset res + pLen) res) in
                  ret {| read_n := pLen; read_err := None;
                         read_p := copy_head p pLen tmp |}
              end
            else
              match slice bDat (bodyReadOffset res) (bodyReadOffset res + sLen) with
              | None => panic "runtime error: slice bounds out of range"
              | Some tmp =>
                  let* _ := put (set_bodyReadOffset (bodyReadOffset res + sLen) res) in
                  ret {| read_n := sLen; read_err := Some io_EOF;
                         read_p := copy_head p sLen tmp |}
              end
        end
      else
        match response res with
        | None => ret {| read_n := 0; read_err := Some io_EOF; read_p := p |}
        | Some r =>
            let* '(n, err, p') := response_Body_Read r p in
            let* _ :=
              if decide (n > 0)%Z
              then call (event res) (ResponseRead (take (Z.to_nat n) p'))
              else ret tt in
            let* _ :=
              if decide (err = Some io_EOF) then
                call_if_set (event res) (ResponseFinish None)
              else
                let* res' := get in
                let* _ := put (set_err err res') in
                call_if_set (event res) (ResponseFinish err) in
            ret {| read_n := n; read_err := err; read_p := p' |}
        end
  end.

(** [RestResult.Err]. *)
Definition Err (res : RestResult) : option error := err res.

(** [RestResult.Header]: the error, or the headers (empty when the
    response or its header map is missing). *)
Definition RestResult_Header (res : RestResult) : option error * option http_Header :=
  match err res with
  | Some e => (Some e, None)
  | None =>
      match response res with
      | Some r =>
          match Header r with
          | Some h => (None, Some h)
          | None => (None, Some ∅)
          end
      | None => (None, Some ∅)
      end
  end.

(** A sequence of [Read] calls, one per buffer, each on the state the
    previous one left; stops at a panic. *)
Fixpoint Reads (ps : list bytes) : M RestResult (list ReadRet) :=
  match ps with
  | [] => ret []
  | p :: ps' =>
      let* r := Read p in
      let* rs := Reads ps' in
      ret (r :: rs)
  end.

End result.
Arguments RestResult B : clear implicits.

(** ** Channels

    A buffered channel [make(chan T, cap)]: the values sent and not yet
    received, and whether it was closed. *)

Record chan (T : Type) := { chan_cap : nat; chan_buf : list T; chan_closed : bool }.
Arguments chan_cap {T} c.
Arguments chan_buf {T} c.
Arguments chan_closed {T} c.

Definition make_chan {T : Type} (cap : nat) : chan T :=
  {| chan_cap := cap; chan_buf := []; chan_closed := false |}.

(** [c <- v]: panics on a closed channel, blocks while the buffer is full
    (no receiver is waiting in this model: the producer runs to its end
    first), otherwise appends. *)
Definition chan_send {T : Type} (v : T) : M (chan T) unit :=
  fun c =>
    if chan_closed c then ([], c, Panics "send on closed channel")
    else if (length (chan_buf c) <? chan_cap c)%nat then
      ([], {| chan_cap := chan_cap c; chan_buf := chan_buf c ++ [v];
              chan_closed := false |}, Returns tt)
    else ([], c, Blocks).

(** [close(c)]. *)
Definition chan_close {T : Type} : M (chan T) unit :=
  fun c =>
    if chan_closed c then ([], c, Panics "close of closed channel")
    else ([], {| chan_cap := chan_cap c; chan_buf := chan_buf c;
                 chan_closed := true |}, Returns tt).

(** What a receive [v, ok := <-c] finds once the producer has finished:
    the next buffered value, the closed-and-drained signal, or nothing ever
    (the receiver blocks for good). *)
Inductive Received (T : Type) : Type :=
  | RecvValue (v : T) (rest : chan T)
  | RecvClosed
  | RecvBlocks.
Arguments RecvValue {T} v rest.
Arguments RecvClosed {T}.
Arguments RecvBlocks {T}.

Definition chan_recv {T : Type} (c : chan T) : Received T :=
  match chan_buf c with
  | v :: rest =>
      RecvValue v {| chan_cap := chan_cap c; chan_buf := rest;
                     chan_closed := chan_closed c |}
  | [] => if chan_closed c then RecvClosed else RecvBlocks
  end.

(** The channel yields exactly one value, [v], and then signals closure. *)
Definition yields_one_then_closes {T : Type} (c : chan T) (v : T) : Prop :=
  ∃ rest, chan_recv c = RecvValue v rest ∧ chan_recv rest = RecvClosed.

(** ** rest_client.go: configuration, capability object, client *)

(** [http.Transport], of which the package touches one setting. *)
Record Transport := { ResponseHeaderTimeout : Z }.

(** [AppRestConfig].  [EventCreate] is a function that may be nil
    ([None]) and whose result is an interface value that may be nil. *)
Record AppRestConfig := {
  Name : string;
  AppKey : string;
  AppSecret : string;
  AppUrl : string;
  EventCreate : option (option RestEvent)
}.

(** Interface [RestConfig]: the package's [*AppRestConfig], or a
    configuration type of the caller's. *)
Inductive RestConfig : Type :=
  | Config_App (c : AppRestConfig)
  | Config_other (name : string).

Definition GetName (c : RestConfig) : string :=
  match c with
  | Config_App c => Name c
  | Config_other name => name
  end.

(** [param interface{}]: what [json.Marshal] makes of the value. *)
Inductive Param : Type :=
  | Marshals (json : string)
  | MarshalFails (err : error).

(** [*RestCallerInfo], from [callerFileInfo]: opaque to the code here. *)
Inductive RestCallerInfo : Type :=
  | callerFileInfo (file : string) (skip depth : Z).

Section client.
Context {B : Type}.

(** The capability object: [RestApi], with the optional methods of
    [RestTokenApi] and [AppRestRequestId] ([None] when the object does
    not implement them).  The methods take only the context, so each is
    given by its result. *)
Record RestApi := {
  ConfigBuilds : gmap Z B + error;
  ConfigName : string + error;
  Token : option (string + error);
  RequestId : option string
}.

Record RestClient := {
  Api : RestApi;
  config : gmap string RestConfig
}.

(** [(client).GetConfig]. *)
Definition GetConfig (client : RestClient) : RestConfig + error :=
  match ConfigName (Api client) with
  | inr err => inr err
  | inl configName =>
      match config client !! configName with
      | None => inr (NewRestClientError "1" ("rest config is exits:" +:+ configName))
      | Some config => inl config
      end
  end.

End client.
Arguments RestApi B : clear implicits.
Arguments RestClient B : clear implicits.

(** Interface [RestBuild], and [RestJsonResult] which a builder may
    implement besides ([None] when it does not).  [BuildRequest] works on
    the shared transport. *)
Class RestBuild (B : Type) := {
  BuildRequest :
    B → RestClient B → Z → Param → RestCallerInfo → M Transport (RestResult B);
  RestJsonResult : B → option (string → option error)
}.

Section dispatcher.
Context {B : Type} `{RestBuild B}.

(** What a call of [Do] works on: its channel and the shared transport. *)
Record DoState := { rc : chan (RestResult B); transport : Transport }.

Definition on_rc {A : Type} (m : M (chan (RestResult B)) A) : M DoState A :=
  zoom rc (fun c s => {| rc := c; transport := transport s |}) m.

Definition on_transport {A : Type} (m : M Transport A) : M DoState A :=
  zoom transport (fun t s => {| rc := rc s; transport := t |}) m.

(** The function [Do] starts with [go]. *)
Definition Do_goroutine (client : RestClient B) (build : B) (key : Z) (param : Param)
    (caller : RestCallerInfo) : M DoState unit :=
  with_recover
    (let* res := on_transport (BuildRequest build client key param caller) in
     let* _ := on_rc (chan_send res) in
     on_rc chan_close)
    (fun info =>
       let* res := NewRestResultFromError
                     (Some (NewRestClientError "3" ("panic " +:+ info))) None in
       let* _ := on_rc (chan_send res) in
       on_rc chan_close).

(** [(client).Do], from the fresh channel to the end of the goroutine it
    may start.  The goroutine is the only producer on [rc], so what a
    receiver finds on [rc] is what the goroutine, run to its end, leaves
    there. *)
Definition Do (client : RestClient B) (key : Z) (param : Param) : M DoState unit :=
  match ConfigBuilds (Api client) with
  | inr err =>
      let* res := NewRestResultFromError (Some err) None in
      on_rc (chan_send res)
  | inl reqs =>
      match reqs !! key with
      | None =>
          let* res := NewRestResultFromError
                        (Some (NewRestClientError "2" "not find rest api")) None in
          let* _ := on_rc (chan_send res) in
          on_rc chan_close
      | Some build =>
          let caller := callerFileInfo "rest_client/rest_client.go" 1 15 in
          Do_goroutine client build key param caller
      end
  end.

(** [rc := make(chan *RestResult, 1)], then the above. *)
Definition Do_run (client : RestClient B) (key : Z) (param : Param) (tr : Transport)
    : list Callback * DoState * Outcome unit :=
  Do client key param {| rc := make_chan 1; transport := tr |}.

(** Modelled from the spec: [NewJsonResult] and [NewJsonResultFromError]
    are not among the sources; the spec has the first hold the raw body
    and a base path for later queries, the second the wrapped error. *)
Inductive JsonResult : Type :=
  | NewJsonResultFromError (err : option error)
  | NewJsonResult (body basePath : string).

(** [ioutil.ReadAll(res)]: [Read] until an error; the end of data is not
    one.  Buffers of 512 bytes ([bytes.MinRead]); a stream that has not
    ended after [fuel] reads leaves the call waiting. *)
Fixpoint ReadAll (fuel : nat) (acc : bytes) : M (RestResult B) (bytes * option error) :=
  match fuel with
  | O => block
  | S fuel' =>
      let* r := Read (replicate 512 "000"%char) in
      let acc' := acc ++ delivered r in
      match read_err r with
      | None => ReadAll fuel' acc'
      | Some e => if decide (e = io_EOF) then ret (acc', None) else ret (acc', Some e)
      end
  end.

(** A deferred function: runs when [body] returns or panics, not while it
    waits. *)
Definition with_defer {St A : Type} (body : M St A) (deferred : M St unit) : M St A :=
  fun s =>
    match body s with
    | (t, s', Blocks) => (t, s', Blocks)
    | (t, s', o) =>
        match deferred s' with
        | (t', s'', Returns _) => (t ++ t', s'', o)
        | (t', s'', Panics info) => (t ++ t', s'', Panics info)
        | (t', s'', Blocks) => (t ++ t', s'', Blocks)
        end
    end.

(** [RestResult.JsonResult(path...)]; [path] is [None] for a call without
    arguments. *)
Definition JsonResult_of (fuel : nat) (path : option (list string))
    : M (RestResult B) JsonResult :=
  with_defer
    (let* res := get in
     match err res with
     | Some e => ret (NewJsonResultFromError (Some e))
     | None =>
         let* '(body, err) := ReadAll fuel [] in
         let* res := get in
         match err with
         | Some _ => ret (NewJsonResultFromError (Err res))
         | None =>
             let bodyStr := string_of_list_ascii body in
             let finish :=
               match path with
               | None => ret (NewJsonResult bodyStr "")
               | Some [] => panic "runtime error: index out of range [0] with length 0"
               | Some (p0 :: _) => ret (NewJsonResult bodyStr p0)
               end in
             match build res ≫= RestJsonResult with
             | Some check =>
                 let* _ := put (set_err (check bodyStr) res) in
                 match check bodyStr with
                 | Some e => ret (NewJsonResultFromError (Some e))
                 | None => finish
                 end
             | None => finish
             end
         end
     end)
    (let* res := get in call_if_set (event res) (ResponseCheck (Err res))).

End dispatcher.

(** ** gjson

    [gjson.Get(json, path)] finds the value at a path in a JSON text and
    [Result.String()] prints it.  The package asks for dotted paths of plain
    member names only. *)

Module gjson.

Inductive Type_ : Type := Null | False_ | Number | String_ | True_ | JSON.

#[global] Instance Type_eq_dec : EqDecision Type_.
Proof. solve_decision. Defined.

(** [gjson.Result] without its numeric field. *)
Record Result := { Type' : Type_; Raw : string; Str : string }.

(** The zero [Result], returned for a path that leads nowhere. *)
Definition missing : Result := {| Type' := Null; Raw := ""; Str := "" |}.

(** [Result.Exists()]. *)
Definition Exists (t : Result) : bool :=
  bool_decide (Type' t ≠ Null ∨ len (Raw t) ≠ 0%Z).

(** *** A reader for JSON texts

    Well-formed documents: objects, arrays, strings with the one-letter
    escapes, numbers, and the three literals.  On anything else the reader
    gives up and [Get] answers [missing]. *)

#[local] Set Warnings "-register-all".
Inductive value : Type :=
  | VLit (t : Type_) (raw : string)
  | VString (raw : string) (s : string)
  | VObject (raw : string) (members : list (string * value))
  | VArray (raw : string) (items : list value).

Definition raw_of (v : value) : string :=
  match v with
  | VLit _ raw | VString raw _ | VObject raw _ | VArray raw _ => raw
  end.

Definition is_ws (c : ascii) : bool :=
  bool_decide (c ∈ [" "; "009"; "010"; "013"]%char).

Fixpoint skip_ws (s : bytes) : bytes :=
  match s with
  | c :: rest => if is_ws c then skip_ws rest else s
  | [] => []
  end.

(** The text consumed between [s0] and its suffix [rest]. *)
Definition consumed (s0 rest : bytes) : string :=
  string_of_list_ascii (take (length s0 - length rest) s0).

Definition unescape (c : ascii) : option ascii :=
  if bool_decide (c ∈ ["034"; "\"; "/"]%char) then Some c
  else if Ascii.eqb c "b" then Some "008"%char
  else if Ascii.eqb c "f" then Some "012"%char
  else if Ascii.eqb c "n" then Some "010"%char
  else if Ascii.eqb c "r" then Some "013"%char
  else if Ascii.eqb c "t" then Some "009"%char
  else None.

(** After the opening quotation mark: the content and what follows the
    closing one. *)
Fixpoint read_string (s : bytes) : option (bytes * bytes) :=
  match s with
  | [] => None
  | c :: rest =>
      if Ascii.eqb c "034" then Some ([], rest)
      else if Ascii.eqb c "\" then
        match rest with
        | e :: rest' =>
            u ← unescape e;
            '(content, after) ← read_string rest';
            Some (u :: content, after)
        | [] => None
        end
      else
        '(content, after) ← read_string rest;
        Some (c :: content, after)
  end.

Definition is_number_char (c : ascii) : bool :=
  let n := N_of_ascii c in
  ((48 <=? n) && (n <=? 57))%N || bool_decide (c ∈ ["-"; "+"; "."; "e"; "E"]%char).

Fixpoint read_number (s : bytes) : bytes * bytes :=
  match s with
  | c :: rest =>
      if is_number_char c
      then let '(digits, after) := read_number rest in (c :: digits, after)
      else ([], s)
  | [] => ([], [])
  end.

Definition read_literal (word : string) (t : Type_) (s : bytes) : option (value * bytes) :=
  let w := list_ascii_of_string word in
  if decide (take (length w) s = w)
  then Some (VLit t word, drop (length w) s)
  else None.

Fixpoint read_value (fuel : nat) (s : bytes) : option (value * bytes) :=
  match fuel with
  | O => None
  | S fuel' =>
      let s0 := skip_ws s in
      match s0 with
      | [] => None
      | c :: rest =>
          if Ascii.eqb c "{" then
            '(members, after) ← read_members fuel' (skip_ws rest);
            Some (VObject (consumed s0 after) members, after)
          else if Ascii.eqb c "[" then
            '(items, after) ← read_items fuel' (skip_ws rest);
            Some (VArray (consumed s0 after) items, after)
          else if Ascii.eqb c "034" then
            '(content, after) ← read_string rest;
            Some (VString (consumed s0 after) (string_of_list_ascii content), after)
          else if Ascii.eqb c "t" then read_literal "true" True_ s0
          else if Ascii.eqb c "f" then read_literal "false" False_ s0
          else if Ascii.eqb c "n" then read_literal "null" Null s0
          else
            match read_number s0 with
            | ([], _) => None
            | (digits, after) => Some (VLit Number (string_of_list_ascii digits), after)
            end
      end
  end
with read_members (fuel : nat) (s : bytes) : option (list (string * value) * bytes) :=
  match fuel with
  | O => None
  | S fuel' =>
      match s with
      | c :: rest =>
          if Ascii.eqb c "}" then Some ([], rest)
          else if Ascii.eqb c "034" then
            '(key, after_key) ← read_string rest;
            match skip_ws after_key with
            | colon :: after_colon =>
                if Ascii.eqb colon ":" then
                  '(v, after_v) ← read_value fuel' after_colon;
                  match skip_ws after_v with
                  | d :: after_d =>
                      if Ascii.eqb d "," then
                        '(more, after) ← read_members fuel' (skip_ws after_d);
                        Some ((string_of_list_ascii key, v) :: more, after)
                      else if Ascii.eqb d "}" then
                        Some ([(string_of_list_ascii key, v)], after_d)
                      else None
                  | [] => None
                  end
                else None
            | [] => None
            end
          else None
      | [] => None
      end
  end
with read_items (fuel : nat) (s : bytes) : option (list value * bytes) :=
  match fuel with
  | O => None
  | S fuel' =>
      match s with
      | c :: rest =>
          if Ascii.eqb c "]" then Some ([], rest)
          else
            '(v, after_v) ← read_value fuel' s;
            match skip_ws after_v with
            | d :: after_d =>
                if Ascii.eqb d "," then
                  '(more, after) ← read_items fuel' (skip_ws after_d);
                  Some (v :: more, after)
                else if Ascii.eqb d "]" then Some ([v], after_d)
                else None
            | [] => None
            end
      | [] => None
      end
  end.

Definition result_of (v : value) : Result :=
  match v with
  | VLit t raw => {| Type' := t; Raw := raw; Str := "" |}
  | VString raw s => {| Type' := String_; Raw := raw; Str := s |}
  | VObject raw _ | VArray raw _ => {| Type' := JSON; Raw := raw; Str := "" |}
  end.

(** The path cut at its dots. *)
Fixpoint split_path (cur : string) (path : bytes) : list string :=
  match path with
  | [] => [cur]
  | c :: rest =>
      if Ascii.eqb c "."
      then cur :: split_path "" rest
      else split_path (cur +:+ String c "") rest
  end.

(** The first member with the name, as gjson scans from the left. *)
Fixpoint member (name : string) (members : list (string * value)) : option value :=
  match members with
  | [] => None
  | (k, v) :: rest => if decide (k = name) then Some v else member name rest
  end.

Fixpoint walk (names : list string) (v : value) : option value :=
  match names with
  | [] => Some v
  | name :: rest =>
      match v with
      | VObject _ members => member name members ≫= walk rest
      | _ => None
      end
  end.

(** [gjson.Get]. *)
Definition Get (json path : string) : Result :=
  let s := list_ascii_of_string json in
  match read_value (S (length s)) s with
  | Some (doc, _) =>
      match walk (split_path "" (list_ascii_of_string path)) doc with
      | Some v => result_of v
      | None => missing
      end
  | None => missing
  end.

(** [Result.String()].  For a number gjson prints the text it read when
    that is a plain integer and the shortest form of the parsed float
    otherwise; the text is kept here in both cases. *)
Definition String (t : Result) : string :=
  match Type' t with
  | Null => ""
  | False_ => "false"
  | Number => Raw t
  | String_ => Str t
  | JSON => Raw t
  | True_ => "true"
  end.

End gjson.

(** ** rest_client.go: the request reader *)

(** [RestRequestReader] around a [strings.Reader], of which the unread part
    is kept; [None] is the nil reader. *)
Record RestRequestReader := { reader : option bytes; reader_event : option RestEvent }.

Definition NewRestRequestReader (reader : option bytes) (event : option RestEvent)
    : RestRequestReader :=
  {| reader := reader; reader_event := event |}.

(** [(read).Read]. *)
Definition RestRequestReader_Read (p : bytes)
    : M RestRequestReader (Z * option error * bytes) :=
  let* read := get in
  match reader read with
  | None => ret (0%Z, Some (NewRestClientError "10" "request reader is empty"), p)
  | Some unread =>
      let n := if decide (unread = []) then 0%Z else Z.min (blen p) (blen unread) in
      let err := if decide (unread = []) then Some io_EOF else None in
      let p' := copy_head p (blen p) unread in
      let* _ := put {| reader := Some (drop (Z.to_nat n) unread);
                       reader_event := reader_event read |} in
      let* _ :=
        match reader_event read with
        | Some _ =>
            if decide (n > 0)%Z
            then call (reader_event read) (RequestRead (take (Z.to_nat n) p'))
            else ret tt
        | None => ret tt
        end in
      ret (n, err, p')
  end.

(** ** app_client.go: the endpoint builder *)

Record AppRestBuild := {
  Timeout : Z;
  Path : string;
  HttpMethod : string;
  Method : string
}.

Definition http_MethodGet : string := "GET".
Definition http_MethodPost : string := "POST".

(** [*http.Request], as far as the builder fills it. *)
Record Request := {
  req_Method : string;
  req_URL : string;
  req_Header : http_Header;
  req_Body : option RestRequestReader
}.

Definition set_req_Header (key : string) (vs : list string) (req : Request) : Request :=
  {| req_Method := req_Method req; req_URL := req_URL req;
     req_Header := <[key := vs]> (req_Header req); req_Body := req_Body req |}.

(** What the transport does with a request: the sizes of the buffers with
    which it reads the body, then the response or the transport error. *)
Record RoundTrip := { body_reads : list nat; round_result : Response + error }.

(** The world outside the package, for one call of [BuildRequest]: the
    clock, already formatted; whether [http.NewRequest] accepts a method and
    a URL ([None]) or with which error it refuses them; the transport, given
    the request and the response-header timeout in effect. *)
Record Env := {
  time_Now : string;
  http_NewRequest : string → string → option error;
  round_trip : Request → Z → RoundTrip
}.

(** A computation on an object of its own, started in state [s0]. *)
Definition locally {St St' A : Type} (s0 : St') (m : M St' A) : M St A :=
  fun s => match m s0 with (t, _, o) => (t, s, o) end.

Fixpoint drain_body (sizes : list nat) : M RestRequestReader unit :=
  match sizes with
  | [] => ret tt
  | k :: sizes' =>
      let* _ := RestRequestReader_Read (replicate k "000"%char) in
      drain_body sizes'
  end.

(** [httpClient.Do(req)] on the shared transport. *)
Definition httpClient_Do (env : Env) (req : Request) : M Transport (Response + error) :=
  let* tr := get in
  let rt := round_trip env req (ResponseHeaderTimeout tr) in
  let* _ :=
    match req_Body req with
    | Some rd => locally rd (drain_body (body_reads rt))
    | None => ret tt
    end in
  ret (round_result rt).

(** [strings.Index(s, "?") == -1]. *)
Definition no_query_marker (s : string) : bool :=
  bool_decide ("?"%char ∉ list_ascii_of_string s).

Section app_build.
(** The path query of gjson, taken as given: the builder's verdict is
    stated for whatever it answers. *)
Variable gjson_Get : string → string → gjson.Result.

(** [(clt).CheckJsonResult]. *)
Definition CheckJsonResult (clt : AppRestBuild) (body : string) : option error :=
  let code := gjson.String (gjson_Get body "result.code") in
  let state := gjson.String (gjson_Get body "result.state") in
  if decide (code ≠ "200" ∨ state ≠ "ok") then
    let msg := gjson.String (gjson_Get body "result.message") in
    let msg := if decide (len msg = 0)%Z then body else msg in
    Some (NewAppClientError code (gjson.String (gjson_Get body "result.state"))
            ("server return fail:" +:+ msg))
  else None.

Variable env : Env.

(** [(clt).BuildRequest]. *)
Definition AppRestBuild_BuildRequest (clt : AppRestBuild)
    (client : RestClient AppRestBuild) (_ : Z) (param : Param) (_ : RestCallerInfo)
    : M Transport (RestResult AppRestBuild) :=
  match GetConfig client with
  | inr err => NewRestResultFromError (Some err) (Some RestEventNoop)
  | inl (Config_other _) =>
      NewRestResultFromError (Some (NewRestClientError "11" "build config is wrong"))
        (Some RestEventNoop)
  | inl (Config_App config) =>
      let event :=
        match EventCreate config with
        | Some created => created
        | None => Some RestEventNoop
        end in
      let* transport := get in
      let headerTime := ResponseHeaderTimeout transport in
      let apiUrl := AppUrl config in
      let appid := AppKey config in
      let keyConfig := AppSecret config in
      match param with
      | MarshalFails err => NewRestResultFromError (Some err) event
      | Marshals jsonParam =>
          match Token (Api client) with
          | Some (inr err) => NewRestResultFromError (Some err) event
          | tokenApi =>
              let token :=
                match tokenApi with Some (inl tokenTmp) => Some tokenTmp | _ => None end in
              let timestamp := time_Now env in
              let dataSign :=
                AppRestParamSign "1.0" appid (Method clt) timestamp jsonParam
                  keyConfig token in
              let reqParam : gmap string string :=
                <["sign" := dataSign]> (<["content" := jsonParam]>
                  (<["timestamp" := timestamp]> (<["version" := "1.0"]>
                    (<["app" := appid]> ∅)))) in
              let reqParam :=
                if decide (len (Method clt) > 0)%Z
                then <["method" := Method clt]> reqParam else reqParam in
              let reqParam :=
                match token with
                | Some t => <["token" := t]> reqParam
                | None => reqParam
                end in
              let pData : url.Values :=
                foldl (fun d key => url.Values_Set d key (map_index reqParam key))
                  ∅ (map_keys reqParam) in
              let paramStr := url.Values_Encode pData in
              let apiUrl := apiUrl +:+ Path clt in
              let apiUrl :=
                if decide (HttpMethod clt = http_MethodGet) then
                  if no_query_marker apiUrl
                  then apiUrl +:+ "?" +:+ paramStr
                  else apiUrl +:+ "&" +:+ paramStr
                else apiUrl in
              let ioRead :=
                if decide (HttpMethod clt = http_MethodGet) then None
                else Some (NewRestRequestReader
                             (Some (list_ascii_of_string paramStr)) event) in
              let* _ := call event (RequestStart (HttpMethod clt) apiUrl) in
              let err := http_NewRequest env (HttpMethod clt) apiUrl in
              let req : option Request :=
                match err with
                | None => Some {| req_Method := HttpMethod clt; req_URL := apiUrl;
                                  req_Header := ∅; req_Body := ioRead |}
                | Some _ => None
                end in
              let* req :=
                match RequestId (Api client), req with
                | Some tmp, Some r => ret (Some (set_req_Header "X-Request-ID" [tmp] r))
                | Some _, None => panic nil_dereference
                | None, _ => ret req
                end in
              let* req :=
                if decide (HttpMethod clt = http_MethodPost) then
                  match req with
                  | Some r =>
                      ret (Some (set_req_Header "Content-Type"
                                   ["application/x-www-form-urlencoded"] r))
                  | None => panic nil_dereference
                  end
                else ret req in
              match err, req with
              | Some e, _ => NewRestResultFromError (Some e) event
              | None, None => panic nil_dereference
              | None, Some r =>
                  let* _ :=
                    if decide (Timeout clt > 0)%Z
                    then put {| ResponseHeaderTimeout := Timeout clt |}
                    else ret tt in
                  let* res := httpClient_Do env r in
                  let* _ :=
                    if decide (Timeout clt > 0)%Z
                    then put {| ResponseHeaderTimeout := headerTime |}
                    else ret tt in
                  match res with
                  | inr e => NewRestResultFromError (Some e) event
                  | inl response => NewRestResult (Some clt) (Some response) event
                  end
              end
          end
      end
  end.

(** [*AppRestBuild] implements [RestBuild] and [RestJsonResult]. *)
#[export] Instance AppRestBuild_RestBuild : RestBuild AppRestBuild := {|
  BuildRequest := AppRestBuild_BuildRequest;
  RestJsonResult := fun clt => Some (CheckJsonResult clt)
|}.

End app_build.

(** ** app_client.go: the logging observer *)

(** One call of the [logger] function of an [AppRestEvent]. *)
Record LoggerCall := {
  log_method : string;
  log_url : string;
  log_httpCode : Z;
  log_httpHeader : option http_Header;
  log_request : bytes;
  log_response : bytes;
  log_err : option error
}.

(** [AppRestEvent]; [logger] tells whether the function is set. *)
Record AppRestEvent := {
  ev_method : string;
  ev_url : string;
  ev_httpCode : Z;
  ev_httpHeader : option http_Header;
  ev_request : bytes;
  ev_response : bytes;
  logger : bool
}.

Definition NewAppRestEvent (logger : bool) : AppRestEvent :=
  {| ev_method := ""; ev_url := ""; ev_httpCode := 0; ev_httpHeader := None;
     ev_request := []; ev_response := []; logger := logger |}.

(** The six methods of [AppRestEvent], by the callback received: the event
    afterwards and the calls of [logger] made. *)
Definition AppRestEvent_on (ev : AppRestEvent) (cb : Callback)
    : AppRestEvent * list LoggerCall :=
  match cb with
  | RequestStart method url =>
      ({| ev_method := method; ev_url := url; ev_httpCode := ev_httpCode ev;
          ev_httpHeader := ev_httpHeader ev; ev_request := ev_request ev;
          ev_response := ev_response ev; logger := logger ev |}, [])
  | RequestRead data =>
      ({| ev_method := ev_method ev; ev_url := ev_url ev; ev_httpCode := ev_httpCode ev;
          ev_httpHeader := ev_httpHeader ev; ev_request := ev_request ev ++ data;
          ev_response := ev_response ev; logger := logger ev |}, [])
  | ResponseHeader httpCode httpHeader =>
      ({| ev_method := ev_method ev; ev_url := ev_url ev; ev_httpCode := httpCode;
          ev_httpHeader := httpHeader; ev_request := ev_request ev;
          ev_response := ev_response ev; logger := logger ev |}, [])
  | ResponseRead data =>
      ({| ev_method := ev_method ev; ev_url := ev_url ev; ev_httpCode := ev_httpCode ev;
          ev_httpHeader := ev_httpHeader ev; ev_request := ev_request ev;
          ev_response := ev_response ev ++ data; logger := logger ev |}, [])
  | ResponseFinish err =>
      (ev, if logger ev
           then [{| log_method := ev_method ev; log_url := ev_url ev;
                    log_httpCode := ev_httpCode ev; log_httpHeader := ev_httpHeader ev;
                    log_request := ev_request ev; log_response := ev_response ev;
                    log_err := err |}]
           else [])
  | ResponseCheck _ => (ev, [])
  end.

(** An [AppRestEvent] receiving a sequence of callbacks. *)
Fixpoint AppRestEvent_observe (ev : AppRestEvent) (trace : list Callback)
    : AppRestEvent * list LoggerCall :=
  match trace with
  | [] => (ev, [])
  | cb :: trace' =>
      let '(ev', logs) := AppRestEvent_on ev cb in
      let '(ev'', logs') := AppRestEvent_observe ev' trace' in
      (ev'', logs ++ logs')
  end.

(** ** The signer of the specification

    The specification describes signing on a set of fields: sort the field
    names, encode the (name, value) pairs in that order, hash the encoded
    string followed by the secret, print the digest in lowercase
    hexadecimal. *)

Definition Sign_fields (fields : gmap string string) (secret : string) : string :=
  let names := sort_Strings (elements (dom fields)) in
  let s := encode_pairs ((fun name => (name, map_index fields name)) <$> names) in
  fmt.Sprintf_x (md5.Sum (bytes_of (s +:+ secret))).

(** The input set with no field named [method] in it. *)
Definition fields_without_method (version appKey timestamp content : string)
    (token : option string) : gmap string string :=
  let fields : gmap string string :=
    {[ "app" := appKey; "version" := version; "timestamp" := timestamp;
       "content" := content ]} in
  match token with
  | Some t => <["token" := t]> fields
  | None => fields
  end.

(** [sub] occurs in [s]. *)
Definition contains (s sub : string) : Prop :=
  ∃ before after, s = before +:+ sub +:+ after.

(** ** Reading a buffered result, as the specification has it *)

Definition sumZ (ns : list Z) : Z := foldr Z.add 0%Z ns.

(** What a [Read] into [p] owes when [off] bytes of [data] have been
    delivered before: as many of the remaining bytes as [p] takes, cut from
    [data] at [off], with the end-of-data signal exactly when nothing is left
    behind. *)
Definition read_ok (data : bytes) (off : Z) (p : bytes) (r : ReadRet) : Prop :=
  let remaining := (blen data - off)%Z in
  read_n r = Z.min remaining (blen p) ∧
  delivered r = take (Z.to_nat (read_n r)) (drop (Z.to_nat off) data) ∧
  read_err r = (if decide (remaining ≤ blen p)%Z then Some io_EOF else None).

(** A result that carries the error [e] and has no observer: every use of it
    hands [e] back and calls nothing. *)
Definition reports_by_value_only {B : Type} `{RestBuild B} (res : RestResult B) (e : error)
    : Prop :=
  event res = None ∧
  Err res = Some e ∧
  RestResult_Header res = (Some e, None) ∧
  (∀ p, Read p res = ([], res, Returns {| read_n := 0; read_err := Some e; read_p := p |})) ∧
  (∀ fuel path,
     JsonResult_of fuel path res = ([], res, Returns (NewJsonResultFromError (Some e)))).

(** The result [NewRestResultFromError(e, nil)] makes. *)
Definition error_result {B : Type} (e : error) : RestResult B :=
  {| event := None; build := None; response := None; body := "";
     bodyReadOffset := -1; err := Some e |}.

(** The channel of a call after one result was sent, closed or left open. *)
Definition delivered_closed {T : Type} (v : T) : chan T :=
  {| chan_cap := 1; chan_buf := [v]; chan_closed := true |}.

Definition delivered_open {T : Type} (v : T) : chan T :=
  {| chan_cap := 1; chan_buf := [v]; chan_closed := false |}.

(** ** The example of the package

    The capability object [RestDome1] of the package's example, its two
    operations, and the configuration the example registers. *)

Definition ProductDetail : Z := 0.
Definition ProductAdd : Z := 1.

Definition time_Second : Z := 1000000000.

Definition RestDome1 (token : string) : RestApi AppRestBuild := {|
  ConfigBuilds := inl {[
    ProductDetail := {| HttpMethod := http_MethodGet; Path := "/jp/product";
                        Method := "detail"; Timeout := 100 * time_Second |};
    ProductAdd := {| HttpMethod := http_MethodPost; Path := "/jp/product";
                     Method := "add"; Timeout := 100 * time_Second |} ]};
  ConfigName := inl "product";
  Token := Some (inl token);
  RequestId := None
|}.

Definition product_config (appUrl : string) : AppRestConfig := {|
  Name := "product";
  AppKey := "hjx";
  AppSecret := "f4dea3417a2f52ae29a635be00537395";
  AppUrl := appUrl;
  EventCreate := Some (Some RestEventObserver)
|}.

Definition example_client (appUrl : string) : RestClient AppRestBuild := {|
  Api := RestDome1 "";
  config := {[ "product" := Config_App (product_config appUrl) ]}
|}.

(** A service that answers every request with status 200 and the given
    body in one piece, and an [http.NewRequest] that, as Go's does, refuses
    a URL that does not start with a scheme. *)
Definition example_env (answer : string) : Env := {|
  time_Now := "2006-01-02 15:04:05";
  http_NewRequest := fun _ url =>
    if String.prefix "http://" url then None
    else Some (error_other "first path segment in URL cannot contain colon");
  round_trip := fun _ _ =>
    {| body_reads := [512%nat; 512%nat];
       round_result := inl {| StatusCode := 200; Header := Some ∅;
                              Body := [ {| step_data := list_ascii_of_string answer;
                                                   step_err := None |} ] |} |}
|}.

Definition example_transport : Transport := {| ResponseHeaderTimeout := 0 |}.

Definition buffer (k : nat) : bytes := replicate k "000"%char.

(** A response whose body arrives as two bytes, then ends. *)
Definition example_live : Response := {|
  StatusCode := 200;
  Header := None;
  Body := [ {| step_data := list_ascii_of_string "ab"; step_err := None |} ]
|}.

Definition count_ResponseFinish (trace : list Callback) : nat :=
  length (filter (fun cb => is_ResponseFinish cb = true) trace).

(** The add operation of the example, as a builder. *)
Definition example_build : AppRestBuild :=
  {| HttpMethod := http_MethodPost; Path := "/jp/product"; Method := "add";
     Timeout := 100 * time_Second |}.


(** ** Shapes of callback sequences *)

Definition is_RequestRead (cb : Callback) : bool :=
  match cb with RequestRead _ => true | _ => false end.

(** The bytes a sequence of callbacks reports as read from the request. *)
Fixpoint request_bytes (trace : list Callback) : bytes :=
  match trace with
  | [] => []
  | RequestRead p :: trace' => p ++ request_bytes trace'
  | _ :: trace' => request_bytes trace'
  end.

(** The bytes a sequence of callbacks reports as read from the response. *)
Fixpoint response_bytes (trace : list Callback) : bytes :=
  match trace with
  | [] => []
  | ResponseRead p :: trace' => p ++ response_bytes trace'
  | _ :: trace' => response_bytes trace'
  end.

(** Whether an interface value is an observer of the caller's. *)
Definition has_observer (event : option RestEvent) : bool :=
  match event with Some RestEventObserver => true | _ => false end.

(** The sequences of callbacks one call of a builder may produce: nothing;
    the finish of a call that failed before the request was started; or the
    start of the request, the pieces of the request body as they are read,
    and then at most one of the response headers and the finish of a call
    that failed. *)
Definition build_trace_ok (t : list Callback) : Prop :=
  t = [] ∨
  (∃ e, t = [ResponseFinish (Some e)]) ∨
  ∃ method url reads last,
    t = RequestStart method url :: reads ++ last ∧
    Forall (fun cb => is_RequestRead cb = true) reads ∧
    (last = [] ∨ (∃ code header, last = [ResponseHeader code header]) ∨
     ∃ e, last = [ResponseFinish (Some e)]).

(** ** The parts of [BuildRequest]

    The same code as in [AppRestBuild_BuildRequest], cut at the places where
    the properties below need a name: the fields put on the wire, their
    encoding, the URL, the body reader, and everything from the start of the
    request on. *)

(** The [reqParam] map of [BuildRequest]. *)
Definition build_reqParam (appid method timestamp jsonParam dataSign : string)
    (token : option string) : gmap string string :=
  let reqParam : gmap string string :=
    <["sign" := dataSign]> (<["content" := jsonParam]>
      (<["timestamp" := timestamp]> (<["version" := "1.0"]>
        (<["app" := appid]> ∅)))) in
  let reqParam :=
    if decide (len method > 0)%Z
    then <["method" := method]> reqParam else reqParam in
  match token with
  | Some t => <["token" := t]> reqParam
  | None => reqParam
  end.

(** [pData.Encode()] after the loop that copies [reqParam] into [pData]. *)
Definition build_paramStr (reqParam : gmap string string) : string :=
  url.Values_Encode
    (foldl (fun d key => url.Values_Set d key (map_index reqParam key))
       ∅ (map_keys reqParam)).

(** The URL of the request. *)
Definition build_apiUrl (clt : AppRestBuild) (appUrl paramStr : string) : string :=
  let apiUrl := appUrl +:+ Path clt in
  if decide (HttpMethod clt = http_MethodGet) then
    if no_query_marker apiUrl
    then apiUrl +:+ "?" +:+ paramStr
    else apiUrl +:+ "&" +:+ paramStr
  else apiUrl.

(** The body of the request: none for GET. *)
Definition build_ioRead (clt : AppRestBuild) (paramStr : string)
    (event : option RestEvent) : option RestRequestReader :=
  if decide (HttpMethod clt = http_MethodGet) then None
  else Some (NewRestRequestReader (Some (list_ascii_of_string paramStr)) event).

(** [BuildRequest] from [event.RequestStart] to its end. *)
Definition BuildRequest_send (env : Env) (clt : AppRestBuild)
    (client : RestClient AppRestBuild) (event : option RestEvent) (headerTime : Z)
    (apiUrl : string) (ioRead : option RestRequestReader)
    : M Transport (RestResult AppRestBuild) :=
  let* _ := call event (RequestStart (HttpMethod clt) apiUrl) in
  let err := http_NewRequest env (HttpMethod clt) apiUrl in
  let req : option Request :=
    match err with
    | None => Some {| req_Method := HttpMethod clt; req_URL := apiUrl;
                      req_Header := ∅; req_Body := ioRead |}
    | Some _ => None
    end in
  let* req :=
    match RequestId (Api client), req with
    | Some tmp, Some r => ret (Some (set_req_Header "X-Request-ID" [tmp] r))
    | Some _, None => panic nil_dereference
    | None, _ => ret req
    end in
  let* req :=
    if decide (HttpMethod clt = http_MethodPost) then
      match req with
      | Some r =>
          ret (Some (set_req_Header "Content-Type"
                       ["application/x-www-form-urlencoded"] r))
      | None => panic nil_dereference
      end
    else ret req in
  match err, req with
  | Some e, _ => NewRestResultFromError (Some e) event
  | None, None => panic nil_dereference
  | None, Some r =>
      let* _ :=
        if decide (Timeout clt > 0)%Z
        then put {| ResponseHeaderTimeout := Timeout clt |}
        else ret tt in
      let* res := httpClient_Do env r in
      let* _ :=
        if decide (Timeout clt > 0)%Z
        then put {| ResponseHeaderTimeout := headerTime |}
        else ret tt in
      match res with
      | inr e => NewRestResultFromError (Some e) event
      | inl response => NewRestResult (Some clt) (Some response) event
      end
  end.

(** The event of a call: what the factory of the configuration makes, or
    the no-op event when there is no factory. *)
Definition build_event (config : AppRestConfig) : option RestEvent :=
  match EventCreate config with
  | Some created => created
  | None => Some RestEventNoop
  end.

(** The token of a call, when the capability object gave one. *)
Definition build_token (tokenApi : option (string + error)) : option string :=
  match tokenApi with Some (inl tokenTmp) => Some tokenTmp | _ => None end.

(** The request [BuildRequest] hands to the transport. *)
Definition build_request (clt : AppRestBuild) (client : RestClient AppRestBuild)
    (apiUrl : string) (ioRead : option RestRequestReader) : Request :=
  let r := {| req_Method := HttpMethod clt; req_URL := apiUrl;
              req_Header := ∅; req_Body := ioRead |} in
  let r :=
    match RequestId (Api client) with
    | Some tmp => set_req_Header "X-Request-ID" [tmp] r
    | None => r
    end in
  if decide (HttpMethod clt = http_MethodPost)
  then set_req_Header "Content-Type" ["application/x-www-form-urlencoded"] r
  else r.

(** The response-header timeout in effect during the round trip. *)
Definition build_timeout (clt : AppRestBuild) (tr : Transport) : Z :=
  if decide (Timeout clt > 0)%Z then Timeout clt else ResponseHeaderTimeout tr.

(** The callback [cb], when the event is an observer. *)
Definition told (event : option RestEvent) (cb : Callback) : list Callback :=
  if has_observer event then [cb] else [].

(** The result of a call that failed with [e], observed by [event]. *)
Definition failed_result {B : Type} (e : error) (event : option RestEvent) : RestResult B :=
  {| event := event; build := None; response := None; body := "";
     bodyReadOffset := -1; err := Some e |}.

(** The result that wraps the live response [r]. *)
Definition live_result {B : Type} (build : option B) (r : Response)
    (event : option RestEvent) : RestResult B :=
  {| event := event; build := build; response := Some r; body := "";
     bodyReadOffset := -1; err := None |}.

(** The entries of a map of fields in ascending order of their names. *)
Definition sorted_entries (m : gmap string string) : list (string * string) :=
  (fun name => (name, map_index m name)) <$> sort_Strings (elements (dom m)).

(** All the bytes a response stream still holds. *)
Definition stream_data (b : Stream) : bytes := mjoin (step_data <$> b).

(** What a [Read] returns on a result that carries the error [e]. *)
Definition refused_read (e : error) (p : bytes) : ReadRet :=
  {| read_n := 0; read_err := Some e; read_p := p |}.

(** The verdict of the builder's checker on a body; no checker, no
    objection. *)
Definition json_verdict {B : Type} `{RestBuild B} (res : RestResult B) (text : string)
    : option error :=
  match build res ≫= RestJsonResult with
  | Some check => check text
  | None => None
  end.

(** What [JsonResult] returns for a body and a verdict on it. *)
Definition json_outcome (verdict : option error) (text : string)
    (path : option (list string)) : JsonResult :=
  match verdict with
  | Some e => NewJsonResultFromError (Some e)
  | None => NewJsonResult text (match path with Some (p0 :: _) => p0 | _ => "" end)
  end.

(** The text of a buffered result that has not been read yet. *)
Definition unread {B : Type} (res : RestResult B) : string :=
  string_of_list_ascii
    (drop (Z.to_nat (bodyReadOffset res)) (list_ascii_of_string (body res))).

(** A buffered result after its text was read to the end and judged. *)
Definition judged {B : Type} (verdict : option error) (res : RestResult B) : RestResult B :=
  set_err verdict (set_bodyReadOffset (blen (list_ascii_of_string (body res))) res).

(** How [JsonResult] ends for a body, a verdict on it and the path
    arguments: an accepted body with an empty, non-nil argument list
    indexes out of range. *)
Definition json_return (verdict : option error) (text : string)
    (path : option (list string)) : Outcome JsonResult :=
  match verdict, path with
  | None, Some [] => Panics "runtime error: index out of range [0] with length 0"
  | _, _ => Returns (json_outcome verdict text path)
  end.

(** The errors a sequence of callbacks reports at its finishes, in order. *)
Fixpoint finish_errors (trace : list Callback) : list (option error) :=
  match trace with
  | [] => []
  | ResponseFinish e :: trace' => e :: finish_errors trace'
  | _ :: trace' => finish_errors trace'
  end.

(** The lowercase hexadecimal digits. *)
Definition is_lower_hex (c : ascii) : Prop :=
  c ∈ list_ascii_of_string "0123456789abcdef".

(** ** The example, continued

    The detail operation of the example as a builder, the caller record
    [Do] makes, a body the service accepts, held in a buffered result, and
    a response that breaks off after two bytes. *)

Definition example_detail : AppRestBuild :=
  {| HttpMethod := http_MethodGet; Path := "/jp/product"; Method := "detail";
     Timeout := 100 * time_Second |}.

Definition example_caller : RestCallerInfo :=
  callerFileInfo "rest_client/rest_client.go" 1 15.

Definition example_url : string := "http://127.0.0.1:8080".

Definition example_accepted : string :=
  quoted "{'result':{'code':'200','state':'ok','data':{'id':'111'}}}".

Definition example_buffered : RestResult AppRestBuild :=
  {| event := Some RestEventObserver; build := Some example_build; response := None;
     body := example_accepted; bodyReadOffset := 0; err := None |}.

Definition example_reset : error := error_other "connection reset by peer".

Definition example_broken : Response := {|
  StatusCode := 200;
  Header := None;
  Body := [ {| step_data := list_ascii_of_string "ab"; step_err := Some example_reset |} ]
|}.

(** What reading a response stream to its end gives: the bytes up to the
    end of the data or up to and with the step that fails, and the error of
    that step; the end of the data is not an error. *)
Fixpoint stream_outcome (b : Stream) : bytes * option error :=
  match b with
  | [] => ([], None)
  | st :: rest =>
      match step_err st with
      | None => (step_data st ++ (stream_outcome rest).1, (stream_outcome rest).2)
      | Some e => (step_data st, if decide (e = io_EOF) then None else Some e)
      end
  end.

(** A bound on the reads a stream takes: every read removes a step or at
    least one byte. *)
Definition stream_reads (b : Stream) : nat := length (stream_data b) + length b.

Definition is_response_callback (cb : Callback) : bool :=
  match cb with ResponseRead _ | ResponseFinish _ => true | _ => false end.

(** The verdict [JsonResult] reaches on a live result: the error that broke
    the stream off, or else the checker's verdict on the text read. *)
Definition live_verdict {B : Type} `{RestBuild B} (res : RestResult B) (b : Stream)
    : option error :=
  match (stream_outcome b).2 with
  | Some e => Some e
  | None => json_verdict res (string_of_list_ascii (stream_outcome b).1)
  end.

(** A response that carries the accepted body in one piece. *)
Definition example_answer : Response := {|
  StatusCode := 200;
  Header := Some ∅;
  Body := [ {| step_data := list_ascii_of_string example_accepted; step_err := None |} ]
|}.

Example md5_empty :
  fmt.Sprintf_x (md5.Sum (bytes_of "")) = "d41d8cd98f00b204e9800998ecf8427e".
Proof. vm_compute. reflexivity. Qed.

Example md5_abc :
  fmt.Sprintf_x (md5.Sum (bytes_of "abc")) = "900150983cd24fb0d6963f7d28e17f72".
Proof. vm_compute. reflexivity. Qed.

Example md5_two_blocks :
  fmt.Sprintf_x (md5.Sum (bytes_of
    "aaaaaaaaaaaaaaaaaaaaaaaaaaaaaaaaaaaaaaaaaaaaaaaaaaaaaaaaaaaaaaaaaaaaaa")) =
  "0f5c6c4e740bfcc08c3c26ccb2673d46".
Proof. vm_compute. reflexivity. Qed.

Example sign_reqData_scenario :
  AppRestParamSign_reqData "1.0" "hjx" "add" "2006-01-02 15:04:05" (quoted "{'id':'111'}") None =
  "app=hjx&content=%7B%22id%22%3A%22111%22%7D&method=add&timestamp=2006-01-02+15%3A04%3A05&version=1.0".
Proof. vm_compute. reflexivity. Qed.

Example sign_scenario :
  AppRestParamSign "1.0" "hjx" "add" "2006-01-02 15:04:05" (quoted "{'id':'111'}")
    "f4dea3417a2f52ae29a635be00537395" None = "c56ea7dd61fcba1638dec6e5ecd54229".
Proof. vm_compute. reflexivity. Qed.

Lemma sort_Strings_Permutation (ks ks' : list string) :
  ks ≡ₚ ks' → sort_Strings ks = sort_Strings ks'.
Proof.
  intros Hp. unfold sort_Strings.
  apply (Sorted_unique String.le); try apply Sorted_merge_sort; try apply _.
  by rewrite !merge_sort_Permutation.
Qed.

Lemma elem_of_sort_Strings (k : string) (ks : list string) :
  k ∈ sort_Strings ks ↔ k ∈ ks.
Proof. unfold sort_Strings. by rewrite merge_sort_Permutation. Qed.

Lemma foldl_Values_Set_lookup (m : gmap string string) (keys : list string)
    (acc : url.Values) (k : string) :
  foldl (fun data key => url.Values_Set data key (map_index m key)) acc keys !! k =
  if decide (k ∈ keys) then Some [map_index m k] else acc !! k.
Proof.
  revert acc. induction keys as [|key keys IH]; intros acc; cbn [foldl].
  - case_decide as Hin; [by apply elem_of_nil in Hin | done].
  - rewrite IH. unfold url.Values_Set.
    destruct (decide (k ∈ keys)) as [Hin|Hnin].
    + by rewrite decide_True by (by right).
    + destruct (decide (k = key)) as [->|Hne].
      * rewrite decide_True by left. by rewrite lookup_insert_eq.
      * rewrite decide_False by (intros [?|?]%elem_of_cons; done).
        by rewrite lookup_insert_ne.
Qed.

Lemma sign_data_in_range (m : gmap string string) (iter : list string) :
  map_range m iter → sign_data_in iter m = (fun v => [v]) <$> m.
Proof.
  intros Hr. apply map_eq. intros k. unfold sign_data_in.
  rewrite foldl_Values_Set_lookup, lookup_fmap, lookup_empty.
  unfold map_index.
  destruct (decide (k ∈ sort_Strings iter)) as [Hin|Hnin].
  - rewrite elem_of_sort_Strings, Hr, elem_of_elements, elem_of_dom in Hin.
    destruct Hin as [v ->]. done.
  - rewrite elem_of_sort_Strings, Hr, elem_of_elements, not_elem_of_dom in Hnin.
    by rewrite Hnin.
Qed.

Lemma string_app_assoc (s1 s2 s3 : string) : (s1 +:+ s2) +:+ s3 = s1 +:+ s2 +:+ s3.
Proof.
  induction s1 as [|c s1 IH]; [done|].
  change (String c ((s1 +:+ s2) +:+ s3) = String c (s1 +:+ s2 +:+ s3)).
  by rewrite IH.
Qed.

Lemma string_app_nil_r (s : string) : s +:+ "" = s.
Proof.
  induction s as [|c s IH]; [done|].
  change (String c (s +:+ "") = String c s). by rewrite IH.
Qed.

Lemma string_length_app (s1 s2 : string) :
  String.length (s1 +:+ s2) = (String.length s1 + String.length s2)%nat.
Proof.
  induction s1 as [|c s1 IH]; [done|].
  change (S (String.length (s1 +:+ s2)) = S (String.length s1 + String.length s2)).
  by rewrite IH.
Qed.

Lemma len_app (s1 s2 : string) : len (s1 +:+ s2) = (len s1 + len s2)%Z.
Proof. unfold len. rewrite string_length_app. lia. Qed.

Lemma len_nonneg (s : string) : (0 ≤ len s)%Z.
Proof. unfold len. lia. Qed.

Lemma encode_pair_nonempty (kv : string * string) : (0 < len (encode_pair kv))%Z.
Proof.
  unfold encode_pair. rewrite !len_app.
  pose proof (len_nonneg (url.QueryEscape kv.1)).
  pose proof (len_nonneg (url.QueryEscape kv.2)).
  change (len "=") with 1%Z. lia.
Qed.

Lemma foldl_write_piece_nonempty (buf : string) (pieces : list string) :
  (0 < len buf)%Z →
  foldl write_piece buf pieces =
  buf +:+ foldr (fun p acc => "&" +:+ p +:+ acc) "" pieces.
Proof.
  revert buf. induction pieces as [|p ps IH]; intros buf Hbuf; cbn [foldl foldr].
  - by rewrite string_app_nil_r.
  - rewrite IH.
    + unfold write_piece. rewrite decide_True by done.
      by rewrite !string_app_assoc.
    + unfold write_piece. rewrite decide_True by done.
      rewrite !len_app. pose proof (len_nonneg p). change (len "&") with 1%Z. lia.
Qed.

Lemma concat_cons_foldr (p : string) (ps : list string) :
  String.concat "&" (p :: ps) = p +:+ foldr (fun p acc => "&" +:+ p +:+ acc) "" ps.
Proof.
  revert p. induction ps as [|q qs IH]; intros p.
  - simpl. by rewrite string_app_nil_r.
  - change (String.concat "&" (p :: q :: qs))
      with (p +:+ "&" +:+ String.concat "&" (q :: qs)).
    rewrite IH. done.
Qed.

Lemma foldl_write_piece_concat (pieces : list string) :
  Forall (fun p => (0 < len p)%Z) pieces →
  foldl write_piece "" pieces = String.concat "&" pieces.
Proof.
  destruct pieces as [|p ps]; [done|].
  intros [Hp _]%Forall_cons. cbn [foldl].
  unfold write_piece at 2. rewrite decide_False by (vm_compute; discriminate).
  change ("" +:+ p) with p.
  rewrite foldl_write_piece_nonempty by done.
  by rewrite concat_cons_foldr.
Qed.

Lemma encode_key_write (k : string) (buf : string) (vs : list string) :
  url.encode_key (url.QueryEscape k) buf vs =
  foldl write_piece buf (encode_pair <$> ((fun x => (k, x)) <$> vs)).
Proof.
  revert buf. induction vs as [|v vs IH]; intros buf; [done|].
  cbn [fmap list_fmap foldl]. unfold url.encode_key in *. cbn [foldl].
  rewrite IH. f_equal.
Qed.

Lemma Values_Encode_in_pairs (iter : list string) (v : url.Values) :
  url.Values_Encode_in iter v = encode_pairs (Values_pairs (sort_Strings iter) v).
Proof.
  unfold url.Values_Encode_in, encode_pairs.
  rewrite <- foldl_write_piece_concat.
  2: { apply Forall_fmap, Forall_forall. intros kv _. apply encode_pair_nonempty. }
  generalize (sort_Strings iter) as keys. generalize "" as buf.
  intros buf keys. revert buf.
  induction keys as [|k keys IH]; intros buf; [done|].
  cbn [foldl]. rewrite IH, encode_key_write.
  unfold Values_pairs. cbn [mbind list_bind]. by rewrite fmap_app, foldl_app.
Qed.

Lemma map_range_check {V : Type} (m : gmap string V) (ks : list string) :
  sort_Strings ks = sort_Strings (elements (dom m)) → map_range m ks.
Proof.
  unfold map_range, sort_Strings. intros Heq.
  rewrite <- (merge_sort_Permutation String.le ks), Heq.
  apply merge_sort_Permutation.
Qed.

Lemma map_range_keys {V : Type} (m : gmap string V) : map_range m (map_keys m).
Proof. unfold map_range, map_keys. reflexivity. Qed.

Lemma len_pos_iff (s : string) : (len s > 0)%Z ↔ s ≠ "".
Proof. destruct s; unfold len; simpl; split; intros; (done || lia). Qed.

Lemma sign_reqParam_lookup (version appKey method timestamp content : string)
    (token : option string) (k v : string) :
  sign_reqParam version appKey method timestamp content token !! k = Some v ↔
  input_field version appKey method timestamp content token k = Some v ∧
  (k = "method" → v ≠ "").
Proof.
  unfold sign_reqParam, input_field.
  destruct token as [t|]; destruct (decide (len method > 0)%Z) as [Hm|Hm];
    rewrite len_pos_iff in Hm;
    repeat (case_decide; simplify_map_eq);
    intuition (simplify_eq; done).
Qed.

Lemma Values_pairs_singleton (keys : list string) (m : gmap string string) :
  (∀ k, k ∈ keys → is_Some (m !! k)) →
  Values_pairs keys ((fun v => [v]) <$> m) = (fun k => (k, map_index m k)) <$> keys.
Proof.
  induction keys as [|k keys IH]; intros Hin; [done|].
  unfold Values_pairs in *. cbn [mbind list_bind fmap list_fmap].
  rewrite IH by (intros k' Hk'; apply Hin; by right).
  destruct (Hin k) as [v Hv]; [left|].
  unfold map_index. rewrite lookup_fmap, Hv. done.
Qed.

(** Whatever the two visiting orders, the pairs written are the entries of
    [reqParam] in ascending order of their names. *)
Lemma sign_pairs_in (m : gmap string string) (iter1 iter2 : list string) :
  map_range m iter1 → map_range (sign_data_in iter1 m) iter2 →
  Values_pairs (sort_Strings iter2) (sign_data_in iter1 m) =
  (fun k => (k, map_index m k)) <$> sort_Strings (elements (dom m)).
Proof.
  intros H1 H2. rewrite (sign_data_in_range m iter1 H1) in *.
  rewrite (sort_Strings_Permutation iter2 (elements (dom m))).
  - apply Values_pairs_singleton. intros k.
    by rewrite elem_of_sort_Strings, elem_of_elements, elem_of_dom.
  - unfold map_range in H2. by rewrite H2, dom_fmap_L.
Qed.

Lemma sign_reqData_in (m : gmap string string) (iter1 iter2 : list string) :
  map_range m iter1 → map_range (sign_data_in iter1 m) iter2 →
  url.Values_Encode_in iter2 (sign_data_in iter1 m) =
  encode_pairs ((fun k => (k, map_index m k)) <$> sort_Strings (elements (dom m))).
Proof.
  intros H1 H2. by rewrite Values_Encode_in_pairs, sign_pairs_in.
Qed.

Lemma elem_of_map_entries (m : gmap string string) (k v : string) :
  (k, v) ∈ (fun k => (k, map_index m k)) <$> sort_Strings (elements (dom m)) ↔
  m !! k = Some v.
Proof.
  rewrite list_elem_of_fmap. split.
  - intros (k' & [= -> ->] & Hin).
    rewrite elem_of_sort_Strings, elem_of_elements, elem_of_dom in Hin.
    destruct Hin as [v Hv]. unfold map_index. by rewrite Hv.
  - intros Hv. exists k. unfold map_index. rewrite Hv. split; [done|].
    rewrite elem_of_sort_Strings, elem_of_elements, elem_of_dom. by exists v.
Qed.

Lemma signed_fields_entries (version appKey method timestamp content : string)
    (token : option string) :
  signed_fields version appKey method timestamp content token =
  (fun k => (k, map_index (sign_reqParam version appKey method timestamp content token) k))
    <$> sort_Strings (elements
          (dom (sign_reqParam version appKey method timestamp content token))).
Proof. unfold signed_fields. apply sign_pairs_in; apply map_range_keys. Qed.

(** ** The signer *)

Lemma sign_reqParam_no_method (version appKey timestamp content : string)
    (token : option string) :
  sign_reqParam version appKey "" timestamp content token =
  fields_without_method version appKey timestamp content token.
Proof.
  unfold sign_reqParam, fields_without_method.
  rewrite decide_False by (vm_compute; discriminate).
  destruct token; f_equal; apply map_eq; intros k;
    repeat (rewrite lookup_insert; case_decide; [done|]); done.
Qed.

Lemma AppRestParamSign_in_Sign_fields (iter1 iter2 : list string)
    (version appKey method timestamp content appSecret : string) (token : option string) :
  map_range (sign_reqParam version appKey method timestamp content token) iter1 →
  map_range
    (sign_data_in iter1 (sign_reqParam version appKey method timestamp content token))
    iter2 →
  AppRestParamSign_in iter1 iter2 version appKey method timestamp content appSecret token =
  Sign_fields (sign_reqParam version appKey method timestamp content token) appSecret.
Proof.
  intros H1 H2. unfold AppRestParamSign_in, Sign_fields.
  by rewrite (sign_reqData_in _ iter1 iter2 H1 H2).
Qed.

Lemma fst_entries (m : gmap string string) (keys : list string) :
  ((fun k => (k, map_index m k)) <$> keys).*1 = keys.
Proof. induction keys as [|k keys IH]; [done|]. cbn. by rewrite IH. Qed.

Lemma signed_fields_elem (version appKey method timestamp content : string)
    (token : option string) (name value : string) :
  (name, value) ∈ signed_fields version appKey method timestamp content token ↔
  input_field version appKey method timestamp content token name = Some value ∧
  (name = "method" → value ≠ "").
Proof.
  by rewrite signed_fields_entries, elem_of_map_entries, sign_reqParam_lookup.
Qed.

(** C2, as the claim has it, fails: a call with an empty app key still signs
    the field app, with the empty value, and a token pointer to the empty
    string still signs the field token. *)
Lemma signed_fields_keep_empty_values :
  input_field "1.0" "" "add" "2006-01-02 15:04:05" "{}" (Some "") "app" = Some "" ∧
  ("app", "") ∈ signed_fields "1.0" "" "add" "2006-01-02 15:04:05" "{}" (Some "") ∧
  ("token", "") ∈ signed_fields "1.0" "" "add" "2006-01-02 15:04:05" "{}" (Some "") ∧
  AppRestParamSign_reqData "1.0" "" "add" "2006-01-02 15:04:05" "{}" (Some "") =
    "app=&content=%7B%7D&method=add&timestamp=2006-01-02+15%3A04%3A05&token=&version=1.0" ∧
  ¬ (∀ (version appKey method timestamp content : string) (token : option string)
       (name value : string),
       (name, value) ∈ signed_fields version appKey method timestamp content token ↔
       input_field version appKey method timestamp content token name = Some value ∧
       value ≠ "").
Proof.
  split_and!.
  - reflexivity.
  - apply signed_fields_elem. by vm_compute.
  - apply signed_fields_elem. by vm_compute.
  - vm_compute. reflexivity.
  - intros Hclaim.
    destruct (Hclaim "1.0" "" "add" "2006-01-02 15:04:05" "{}" (Some "") "app" "")
      as [Hin _].
    destruct Hin as [_ Hne]; [|by apply Hne].
    apply signed_fields_elem. by vm_compute.
Qed.

(** C2 (amended): the pairs that enter the encoded, signed string are, in
    ascending order of the names, the fields app, version, timestamp and
    content whatever their values, the field method when it is not empty,
    and the field token when the token pointer is not nil. *)
Theorem signed_fields_spec (version appKey method timestamp content : string)
    (token : option string) :
  AppRestParamSign_reqData version appKey method timestamp content token =
    encode_pairs (signed_fields version appKey method timestamp content token) ∧
  Sorted String.le (signed_fields version appKey method timestamp content token).*1 ∧
  NoDup (signed_fields version appKey method timestamp content token).*1 ∧
  ∀ name value : string,
    (name, value) ∈ signed_fields version appKey method timestamp content token ↔
    input_field version appKey method timestamp content token name = Some value ∧
    (name = "method" → value ≠ "").
Proof.
  split; [|split; [|split]].
  - unfold AppRestParamSign_reqData, signed_fields, url.Values_Encode.
    by rewrite Values_Encode_in_pairs.
  - rewrite signed_fields_entries, fst_entries.
    apply Sorted_merge_sort; apply _.
  - rewrite signed_fields_entries, fst_entries.
    unfold sort_Strings. rewrite merge_sort_Permutation. apply NoDup_elements.
  - apply signed_fields_elem.
Qed.

(** C5: signing with an empty method gives the signature of the
    specification's computation on the input set without a method field,
    and no pair named method is encoded. *)
Theorem sign_empty_method_omits_field (iter1 iter2 : list string)
    (version appKey timestamp content appSecret : string) (token : option string) :
  map_range (sign_reqParam version appKey "" timestamp content token) iter1 →
  map_range
    (sign_data_in iter1 (sign_reqParam version appKey "" timestamp content token)) iter2 →
  AppRestParamSign_in iter1 iter2 version appKey "" timestamp content appSecret token =
    Sign_fields (fields_without_method version appKey timestamp content token) appSecret ∧
  AppRestParamSign version appKey "" timestamp content appSecret token =
    Sign_fields (fields_without_method version appKey timestamp content token) appSecret ∧
  "method" ∉ (signed_fields version appKey "" timestamp content token).*1.
Proof.
  intros H1 H2. split; [|split].
  - by rewrite AppRestParamSign_in_Sign_fields, sign_reqParam_no_method.
  - unfold AppRestParamSign.
    rewrite AppRestParamSign_in_Sign_fields by apply map_range_keys.
    by rewrite sign_reqParam_no_method.
  - intros [[name value] [Hname Hin]]%list_elem_of_fmap. simpl in Hname. subst name.
    apply signed_fields_elem in Hin as [Hf Hne].
    unfold input_field in Hf. simpl in Hf. injection Hf as <-. by apply Hne.
Qed.

Lemma sign_empty_method_omits_field_witness :
  AppRestParamSign_in ["version"; "app"; "content"; "timestamp"]
      ["timestamp"; "content"; "app"; "version"]
      "1.0" "hjx" "" "2006-01-02 15:04:05" "{}" "secret" None =
    Sign_fields (fields_without_method "1.0" "hjx" "2006-01-02 15:04:05" "{}" None) "secret" ∧
  AppRestParamSign "1.0" "hjx" "" "2006-01-02 15:04:05" "{}" "secret" None =
    Sign_fields (fields_without_method "1.0" "hjx" "2006-01-02 15:04:05" "{}" None) "secret" ∧
  "method" ∉ (signed_fields "1.0" "hjx" "" "2006-01-02 15:04:05" "{}" None).*1.
Proof.
  apply sign_empty_method_omits_field; apply map_range_check; vm_compute; reflexivity.
Defined.

(** C6: the signature does not depend on the order in which the two map
    iterations visit the keys; two invocations with the same arguments
    return the same string. *)
Theorem AppRestParamSign_deterministic (iter1 iter2 iter1' iter2' : list string)
    (version appKey method timestamp content appSecret : string) (token : option string) :
  let reqParam := sign_reqParam version appKey method timestamp content token in
  map_range reqParam iter1 → map_range (sign_data_in iter1 reqParam) iter2 →
  map_range reqParam iter1' → map_range (sign_data_in iter1' reqParam) iter2' →
  AppRestParamSign_in iter1 iter2 version appKey method timestamp content appSecret token =
  AppRestParamSign_in iter1' iter2' version appKey method timestamp content appSecret token.
Proof.
  intros reqParam H1 H2 H1' H2'.
  rewrite !AppRestParamSign_in_Sign_fields; done.
Qed.

Lemma AppRestParamSign_deterministic_witness :
  AppRestParamSign_in
    ["method"; "version"; "app"; "token"; "content"; "timestamp"]
    ["timestamp"; "token"; "content"; "app"; "version"; "method"]
    "1.0" "hjx" "add" "2006-01-02 15:04:05" "{}" "secret" (Some "tk") =
  AppRestParamSign_in
    ["app"; "content"; "timestamp"; "version"; "token"; "method"]
    ["version"; "method"; "token"; "app"; "timestamp"; "content"]
    "1.0" "hjx" "add" "2006-01-02 15:04:05" "{}" "secret" (Some "tk").
Proof.
  apply AppRestParamSign_deterministic; apply map_range_check; vm_compute; reflexivity.
Defined.

(** ** Reading a buffered result *)

Section buffered.
Context {B : Type}.
Implicit Types (res : RestResult B) (p : bytes).

Lemma blen_nonneg p : (0 ≤ blen p)%Z.
Proof. unfold blen. lia. Qed.

Lemma blen_take (k : Z) p : (0 ≤ k ≤ blen p)%Z → blen (take (Z.to_nat k) p) = k.
Proof. unfold blen. rewrite length_take. lia. Qed.

Lemma blen_drop (k : Z) p : (0 ≤ k ≤ blen p)%Z → blen (drop (Z.to_nat k) p) = (blen p - k)%Z.
Proof. unfold blen. rewrite length_drop. lia. Qed.

Lemma slice_Some (l : bytes) (lo hi : Z) :
  (0 ≤ lo ≤ hi)%Z → (hi ≤ blen l)%Z →
  slice l lo hi = Some (take (Z.to_nat (hi - lo)) (drop (Z.to_nat lo) l)).
Proof. intros ??. unfold slice. by rewrite decide_True by lia. Qed.

Lemma delivered_copy_head p (k : Z) (src : bytes) :
  blen src = k → (k ≤ blen p)%Z →
  delivered {| read_n := k; read_err := None; read_p := copy_head p k src |} = src.
Proof.
  intros Hk Hp. unfold delivered, copy_head. cbn [read_n read_p].
  rewrite Hk, Z.min_id.
  assert (Z.to_nat k = length src) as -> by (unfold blen in Hk; lia).
  by rewrite firstn_all, take_app_length.
Qed.

Lemma set_bodyReadOffset_id res : set_bodyReadOffset (bodyReadOffset res) res = res.
Proof. by destruct res. Qed.

(** One [Read] on a buffered result. *)
Lemma Read_buffered res p :
  err res = None →
  (0 ≤ bodyReadOffset res ≤ blen (list_ascii_of_string (body res)))%Z →
  ∃ r, Read p res = ([], set_bodyReadOffset (bodyReadOffset res + read_n r) res, Returns r) ∧
       (0 ≤ read_n r)%Z ∧
       (bodyReadOffset res + read_n r ≤ blen (list_ascii_of_string (body res)))%Z ∧
       read_ok (list_ascii_of_string (body res)) (bodyReadOffset res) p r.
Proof.
  intros Herr Hoff.
  set (bDat := list_ascii_of_string (body res)) in *.
  set (off := bodyReadOffset res) in *.
  pose proof (blen_nonneg p) as Hp.
  assert (blen (drop (Z.to_nat off) bDat) = (blen bDat - off)%Z) as Hrest
    by (apply blen_drop; lia).
  unfold Read, bind, get. cbn [fst snd]. rewrite Herr.
  rewrite decide_True by (fold off; lia). fold bDat off.
  rewrite slice_Some by lia.
  rewrite take_ge by (rewrite length_drop; unfold blen; lia).
  rewrite Hrest.
  destruct (decide (blen bDat - off = 0)%Z) as [Hz|Hnz].
  { exists {| read_n := 0; read_err := Some io_EOF; read_p := p |}.
    cbn [read_n]. rewrite Z.add_0_r. subst off. rewrite set_bodyReadOffset_id.
    split; [done|]. repeat split; try lia.
    - cbn [read_n]. lia.
    - cbn [read_err]. by rewrite decide_True by lia. }
  destruct (decide (blen bDat - off > blen p)%Z) as [Hgt|Hle].
  - rewrite slice_Some by lia.
    replace (off + blen p - off)%Z with (blen p) by lia.
    exists {| read_n := blen p; read_err := None;
              read_p := copy_head p (blen p)
                          (take (Z.to_nat (blen p)) (drop (Z.to_nat off) bDat)) |}.
    split; [done|]. cbn [read_n]. repeat split; try lia.
    + cbn [read_n]. lia.
    + rewrite delivered_copy_head; [done| |lia].
      apply blen_take. rewrite Hrest. lia.
    + cbn [read_err]. by rewrite decide_False by lia.
  - rewrite slice_Some by lia.
    replace (off + (blen bDat - off) - off)%Z with (blen bDat - off)%Z by lia.
    exists {| read_n := blen bDat - off; read_err := Some io_EOF;
              read_p := copy_head p (blen bDat - off)
                          (take (Z.to_nat (blen bDat - off)) (drop (Z.to_nat off) bDat)) |}.
    split; [done|]. cbn [read_n]. repeat split; try lia.
    + cbn [read_n]. lia.
    + pose proof (delivered_copy_head p (blen bDat - off)
                    (take (Z.to_nat (blen bDat - off)) (drop (Z.to_nat off) bDat))) as Hd.
      unfold delivered in *. cbn [read_n read_p] in *. apply Hd; [|lia].
      apply blen_take. rewrite Hrest. lia.
    + cbn [read_err]. by rewrite decide_True by lia.
Qed.

Lemma sumZ_cons (n : Z) (ns : list Z) : sumZ (n :: ns) = (n + sumZ ns)%Z.
Proof. done. Qed.

Lemma sumZ_blen_nonneg (ps : list bytes) : (0 ≤ sumZ (blen <$> ps))%Z.
Proof.
  induction ps as [|p ps IH]; [done|].
  rewrite fmap_cons, sumZ_cons. pose proof (blen_nonneg p). lia.
Qed.

(** A sequence of [Read]s on a buffered result, from any offset. *)
Lemma Reads_buffered (ps : list bytes) res :
  err res = None →
  (0 ≤ bodyReadOffset res ≤ blen (list_ascii_of_string (body res)))%Z →
  ∃ rs,
    Reads ps res =
      ([], set_bodyReadOffset (bodyReadOffset res + sumZ (read_n <$> rs)) res, Returns rs) ∧
    length rs = length ps ∧
    (0 ≤ sumZ (read_n <$> rs))%Z ∧
    (bodyReadOffset res + sumZ (read_n <$> rs) ≤ blen (list_ascii_of_string (body res)))%Z ∧
    sumZ (read_n <$> rs) =
      Z.min (blen (list_ascii_of_string (body res)) - bodyReadOffset res)
            (sumZ (blen <$> ps)) ∧
    (∀ i r p, rs !! i = Some r → ps !! i = Some p →
       read_ok (list_ascii_of_string (body res))
         (bodyReadOffset res + sumZ (read_n <$> take i rs)) p r) ∧
    mjoin (delivered <$> rs) =
      take (Z.to_nat (sumZ (read_n <$> rs)))
        (drop (Z.to_nat (bodyReadOffset res)) (list_ascii_of_string (body res))).
Proof.
  revert res. induction ps as [|p ps IH]; intros res Herr Hoff.
  - exists []. cbn. rewrite Z.add_0_r, set_bodyReadOffset_id.
    split_and!; try done; try lia.
  - destruct (Read_buffered res p Herr Hoff) as (r & HRead & Hn & Hle & Hok).
    destruct (IH (set_bodyReadOffset (bodyReadOffset res + read_n r) res))
      as (rs & HReads & Hlen & Hsum & Hle' & Htot & Hall & Hjoin); [done|cbn; lia|].
    cbn [body bodyReadOffset set_bodyReadOffset] in *.
    exists (r :: rs). rewrite fmap_cons, sumZ_cons. split_and!.
    + cbn [Reads]. unfold bind at 1. rewrite HRead.
      unfold bind at 1. rewrite HReads. unfold ret.
      by rewrite Z.add_assoc.
    + cbn. by rewrite Hlen.
    + lia.
    + lia.
    + rewrite fmap_cons, sumZ_cons, Htot. destruct Hok as (-> & _).
      pose proof (sumZ_blen_nonneg ps). pose proof (blen_nonneg p). lia.
    + intros k r' p' Hr' Hp'. destruct k as [|k]; simplify_eq/=.
      * by rewrite Z.add_0_r.
      * rewrite Z.add_assoc. by apply Hall.
    + rewrite fmap_cons. change (mjoin (delivered r :: (delivered <$> rs)))
        with (delivered r ++ mjoin (delivered <$> rs)).
      rewrite Hjoin. destruct Hok as (_ & -> & _).
      rewrite !Z2Nat.inj_add by lia. rewrite <- drop_drop.
      by rewrite take_take_drop.
Qed.
End buffered.

(** C7: on a result made from a buffered body, a sequence of reads delivers
    consecutive slices of the body, each as long as the rest of the body and
    the buffer allow; their concatenation is the part of the body read so
    far, and the whole body once the buffers had room for it; the read that
    takes the last bytes gets all of them together with the end-of-data
    signal, and a read after that gets no byte and the signal again. *)
Theorem buffered_reads_forward_only {B : Type} (build : option B) (text : string)
    (response : option Response) (event : option RestEvent) (ps : list bytes) :
  let data := list_ascii_of_string text in
  ∃ (t0 : list Callback) (res0 res' : RestResult B) (rs : list ReadRet),
    NewRestBodyResult build text response event tt = (t0, tt, Returns res0) ∧
    Reads ps res0 = ([], res', Returns rs) ∧
    length rs = length ps ∧
    (∀ i r p, rs !! i = Some r → ps !! i = Some p →
       read_ok data (sumZ (read_n <$> take i rs)) p r) ∧
    (∀ i r p, rs !! i = Some r → ps !! i = Some p →
       (0 < blen data - sumZ (read_n <$> take i rs) ≤ blen p)%Z →
       delivered r = drop (Z.to_nat (sumZ (read_n <$> take i rs))) data ∧
       read_err r = Some io_EOF) ∧
    (∀ i r, rs !! i = Some r → sumZ (read_n <$> take i rs) = blen data →
       read_n r = 0%Z ∧ delivered r = [] ∧ read_err r = Some io_EOF) ∧
    mjoin (delivered <$> rs) = take (Z.to_nat (sumZ (read_n <$> rs))) data ∧
    (blen data ≤ sumZ (blen <$> ps) → mjoin (delivered <$> rs) = data)%Z.
Proof.
  intros data.
  set (res0 := {| event := event; build := build; response := response; body := text;
                  bodyReadOffset := 0; err := None |} : RestResult B).
  assert (∃ t0, NewRestBodyResult build text response event tt = (t0, tt, Returns res0))
    as [t0 Ht0].
  { destruct event as [[|]|], response as [r|]; eexists; reflexivity. }
  destruct (Reads_buffered ps res0) as (rs & HReads & Hlen & Hsum & Hle & Htot & Hall & Hjoin);
    [done | cbn; pose proof (blen_nonneg (list_ascii_of_string text)); lia |].
  cbn [bodyReadOffset body res0] in *. fold data in Hle, Htot, Hall, Hjoin.
  rewrite Z.sub_0_r in Htot. rewrite drop_0 in Hjoin.
  exists t0, res0, (set_bodyReadOffset (0 + sumZ (read_n <$> rs)) res0), rs.
  split_and!; try done.
  - intros i r p Hr Hp [Hpos Hfit]. specialize (Hall i r p Hr Hp).
    rewrite Z.add_0_l in Hall. destruct Hall as (Hn & Hd & He).
    rewrite decide_True in He by done. split; [|done].
    rewrite Hd, Hn, Z.min_l by done.
    apply take_ge. rewrite length_drop. unfold blen in *. lia.
  - intros i r Hr Hoff.
    destruct (lookup_lt_is_Some_2 ps i) as [p Hp].
    { rewrite <- Hlen. by eapply lookup_lt_Some. }
    specialize (Hall i r p Hr Hp). rewrite Z.add_0_l in Hall.
    destruct Hall as (Hn & Hd & He). pose proof (blen_nonneg p).
    rewrite Hoff, Z.sub_diag in Hn, He. rewrite Z.min_l in Hn by done.
    rewrite decide_True in He by done. by rewrite Hd, Hn.
  - intros Hroom. rewrite Hjoin, Htot, Z.min_l by done.
    apply take_ge. unfold blen. lia.
Qed.

Lemma buffered_reads_forward_only_witness :
  let data := list_ascii_of_string "hello world" in
  let ps := [replicate 4 "000"%char; replicate 4 "000"%char; replicate 4 "000"%char;
             replicate 4 "000"%char] in
  ∃ (t0 : list Callback) (res0 res' : RestResult unit) (rs : list ReadRet),
    NewRestBodyResult None "hello world" None (Some RestEventObserver) tt =
      (t0, tt, Returns res0) ∧
    Reads ps res0 = ([], res', Returns rs) ∧
    length rs = length ps ∧
    (∀ i r p, rs !! i = Some r → ps !! i = Some p →
       read_ok data (sumZ (read_n <$> take i rs)) p r) ∧
    (∀ i r p, rs !! i = Some r → ps !! i = Some p →
       (0 < blen data - sumZ (read_n <$> take i rs) ≤ blen p)%Z →
       delivered r = drop (Z.to_nat (sumZ (read_n <$> take i rs))) data ∧
       read_err r = Some io_EOF) ∧
    (∀ i r, rs !! i = Some r → sumZ (read_n <$> take i rs) = blen data →
       read_n r = 0%Z ∧ delivered r = [] ∧ read_err r = Some io_EOF) ∧
    mjoin (delivered <$> rs) = take (Z.to_nat (sumZ (read_n <$> rs))) data ∧
    (blen data ≤ sumZ (blen <$> ps) → mjoin (delivered <$> rs) = data)%Z.
Proof.
  exact (buffered_reads_forward_only None "hello world" None (Some RestEventObserver)
           [replicate 4 "000"%char; replicate 4 "000"%char; replicate 4 "000"%char;
            replicate 4 "000"%char]).
Defined.

Example buffered_reads_hello :
  (Reads [replicate 4 "000"; replicate 4 "000"; replicate 4 "000"; replicate 4 "000"]%char
     {| event := None; build := @None unit; response := None; body := "hello world";
        bodyReadOffset := 0; err := None |}).2 =
  Returns
    [ {| read_n := 4; read_err := None; read_p := list_ascii_of_string "hell" |};
      {| read_n := 4; read_err := None; read_p := list_ascii_of_string "o wo" |};
      {| read_n := 3; read_err := Some io_EOF;
         read_p := list_ascii_of_string "rld" ++ ["000"%char] |};
      {| read_n := 0; read_err := Some io_EOF; read_p := replicate 4 "000"%char |} ].
Proof. vm_compute. reflexivity. Qed.

(** ** The dispatcher *)

Section dispatcher_facts.
Context {B : Type} `{RestBuild B}.
Implicit Types (client : RestClient B) (res : RestResult B).

Lemma delivered_closed_yields res : yields_one_then_closes (delivered_closed res) res.
Proof. eexists. split; reflexivity. Qed.

Lemma delivered_open_blocks res :
  ∃ rest, chan_recv (delivered_open res) = RecvValue res rest ∧
          chan_recv rest = RecvBlocks.
Proof. eexists. split; reflexivity. Qed.

Lemma delivered_open_not_closed res res' :
  ¬ yields_one_then_closes (delivered_open res) res'.
Proof. intros (rest & Hv & Hc). cbv in Hv. injection Hv as <- <-. discriminate Hc. Qed.

(** An error result with no observer reports by value only. *)
Lemma error_result_reports (e : error) : reports_by_value_only (error_result e) e.
Proof.
  unfold reports_by_value_only. split_and!; done.
Qed.

(** The capability object cannot list its operations: one result is sent
    and the channel is left open. *)
Lemma Do_ConfigBuilds_error client key param tr (e : error) :
  ConfigBuilds (Api client) = inr e →
  Do_run client key param tr =
    ([], {| rc := delivered_open (error_result e); transport := tr |}, Returns tt).
Proof. intros HB. unfold Do_run, Do. by rewrite HB. Qed.

(** The key is not in the table. *)
Lemma Do_key_absent client key param tr (reqs : gmap Z B) :
  ConfigBuilds (Api client) = inl reqs → reqs !! key = None →
  Do_run client key param tr =
    ([], {| rc := delivered_closed
                    (error_result (NewRestClientError "2" "not find rest api"));
            transport := tr |}, Returns tt).
Proof. intros HB Hk. unfold Do_run, Do. by rewrite HB, Hk. Qed.

(** The builder returns. *)
Lemma Do_build_returns client key param tr (reqs : gmap Z B) (build : B)
    (t : list Callback) (tr' : Transport) res :
  ConfigBuilds (Api client) = inl reqs → reqs !! key = Some build →
  BuildRequest build client key param
    (callerFileInfo "rest_client/rest_client.go" 1 15) tr = (t, tr', Returns res) →
  Do_run client key param tr =
    (t, {| rc := delivered_closed res; transport := tr' |}, Returns tt).
Proof.
  intros HB Hk Hrun. unfold Do_run, Do. rewrite HB, Hk.
  unfold Do_goroutine, with_recover, bind, on_transport, on_rc, zoom.
  cbn [transport rc]. rewrite Hrun. cbn. by rewrite ?app_nil_r.
Qed.

(** The builder panics. *)
Lemma Do_build_panics client key param tr (reqs : gmap Z B) (build : B)
    (t : list Callback) (tr' : Transport) (info : string) :
  ConfigBuilds (Api client) = inl reqs → reqs !! key = Some build →
  BuildRequest build client key param
    (callerFileInfo "rest_client/rest_client.go" 1 15) tr = (t, tr', Panics info) →
  Do_run client key param tr =
    (t, {| rc := delivered_closed
                   (error_result (NewRestClientError "3" ("panic " +:+ info)));
           transport := tr' |}, Returns tt).
Proof.
  intros HB Hk Hrun. unfold Do_run, Do. rewrite HB, Hk.
  unfold Do_goroutine, with_recover, bind, on_transport, on_rc, zoom.
  cbn [transport rc]. rewrite Hrun. cbn. by rewrite ?app_nil_r.
Qed.

(** The builder never comes back: nothing is ever sent. *)
Lemma Do_build_blocks client key param tr (reqs : gmap Z B) (build : B)
    (t : list Callback) (tr' : Transport) :
  ConfigBuilds (Api client) = inl reqs → reqs !! key = Some build →
  BuildRequest build client key param
    (callerFileInfo "rest_client/rest_client.go" 1 15) tr = (t, tr', Blocks) →
  Do_run client key param tr =
    (t, {| rc := make_chan 1; transport := tr' |}, Blocks).
Proof.
  intros HB Hk Hrun. unfold Do_run, Do. rewrite HB, Hk.
  unfold Do_goroutine, with_recover, bind, on_transport, on_rc, zoom.
  cbn [transport rc]. by rewrite Hrun.
Qed.
End dispatcher_facts.

(** C1 (the code departs from it): when the capability object fails to list
    its operations, [Do] sends one result and returns without closing the
    channel; a receiver gets that result and then waits for ever. *)
Theorem Do_ConfigBuilds_error_leaves_channel_open {B : Type} `{RestBuild B}
    (e : error) (name : string + error) (token : option (string + error))
    (rid : option string) (cfg : gmap string RestConfig)
    (key : Z) (param : Param) (tr : Transport) :
  let client := {| Api := {| ConfigBuilds := inr e; ConfigName := name;
                             Token := token; RequestId := rid |};
                   config := cfg |} in
  ∃ s, Do_run client key param tr = ([], s, Returns tt) ∧
       rc s = delivered_open (error_result e) ∧
       chan_closed (rc s) = false ∧
       (∃ rest, chan_recv (rc s) = RecvValue (error_result e) rest ∧
                chan_recv rest = RecvBlocks) ∧
       ∀ res, ¬ yields_one_then_closes (rc s) res.
Proof.
  intros client. eexists. split; [by apply Do_ConfigBuilds_error|].
  cbn [rc]. split_and!; try done.
  - apply delivered_open_blocks.
  - apply delivered_open_not_closed.
Qed.

(** The other three ways through [Do] deliver one result and close. *)
Lemma Do_delivers_once_otherwise {B : Type} `{RestBuild B} (client : RestClient B)
    (key : Z) (param : Param) (tr : Transport) (reqs : gmap Z B) :
  ConfigBuilds (Api client) = inl reqs →
  (reqs !! key = None ∨
   ∃ build t tr' o, reqs !! key = Some build ∧
     BuildRequest build client key param
       (callerFileInfo "rest_client/rest_client.go" 1 15) tr = (t, tr', o) ∧
     o ≠ Blocks) →
  ∃ t s res, Do_run client key param tr = (t, s, Returns tt) ∧
             yields_one_then_closes (rc s) res.
Proof.
  intros HB [Hk | (build & t & tr' & o & Hk & Hrun & Ho)].
  - do 3 eexists. split; [by eapply Do_key_absent|]. apply delivered_closed_yields.
  - destruct o as [res|info|]; [| |done].
    + do 3 eexists. split; [by eapply Do_build_returns|]. apply delivered_closed_yields.
    + do 3 eexists. split; [by eapply Do_build_panics|]. apply delivered_closed_yields.
Qed.

(** C9: a panic of the builder stops at the goroutine's deferred function:
    the call ends normally, and its channel yields exactly one result, whose
    error is not nil, and then closes. *)
Theorem Do_contains_builder_panic {B : Type} `{RestBuild B} (client : RestClient B)
    (key : Z) (param : Param) (tr : Transport) (reqs : gmap Z B) (build : B)
    (t : list Callback) (tr' : Transport) (info : string) :
  ConfigBuilds (Api client) = inl reqs →
  reqs !! key = Some build →
  BuildRequest build client key param
    (callerFileInfo "rest_client/rest_client.go" 1 15) tr = (t, tr', Panics info) →
  ∃ s res, Do_run client key param tr = (t, s, Returns tt) ∧
           yields_one_then_closes (rc s) res ∧
           chan_buf (rc s) = [res] ∧
           Err res = Some (NewRestClientError "3" ("panic " +:+ info)) ∧
           Err res ≠ None.
Proof.
  intros HB Hk Hrun. do 2 eexists.
  split; [by eapply Do_build_panics|]. cbn [rc]. split_and!; try done.
  apply delivered_closed_yields.
Qed.

Lemma Do_contains_builder_panic_witness :
  ∃ s res,
    @Do_run _ (AppRestBuild_RestBuild gjson.Get (example_env "{}"))
      (example_client "127.0.0.1:8080") ProductAdd (Marshals "{}") example_transport =
      ([RequestStart "POST" "127.0.0.1:8080/jp/product"], s, Returns tt) ∧
    yields_one_then_closes (rc s) res ∧
    chan_buf (rc s) = [res] ∧
    Err res = Some (NewRestClientError "3" ("panic " +:+ nil_dereference)) ∧
    Err res ≠ None.
Proof.
  eapply (@Do_contains_builder_panic _ (AppRestBuild_RestBuild gjson.Get (example_env "{}")));
    [reflexivity | reflexivity | vm_compute; reflexivity].
Defined.

(** C10, as the claim has it, fails for a builder that panics: the example's
    add operation, configured with a base URL that has no scheme, reports
    the start of the request to the observer, then faults on the request
    that was not built; [Do] delivers its error result with a nil event. *)
Lemma Do_panic_after_RequestStart :
  ∃ s res,
    @Do_run _ (AppRestBuild_RestBuild gjson.Get (example_env "{}"))
      (example_client "127.0.0.1:8080") ProductAdd (Marshals "{}") example_transport =
      ([RequestStart "POST" "127.0.0.1:8080/jp/product"], s, Returns tt) ∧
    chan_buf (rc s) = [res] ∧
    event res = None ∧
    Err res = Some (NewRestClientError "3" ("panic " +:+ nil_dereference)) ∧
    [RequestStart "POST" "127.0.0.1:8080/jp/product"] ≠ [].
Proof. do 2 eexists. split; [vm_compute; reflexivity|]. done. Qed.

(** C10 (amended): the error result [Do] makes itself has a nil event and
    reports its error by value only: making it and using it call nothing.
    When the operations cannot be listed or the key is absent, the call
    fires no callback at all; when the builder panics, the callbacks of the
    call are those the builder fired before the fault, and [Do] adds none. *)
Theorem Do_error_results_have_nil_event {B : Type} `{RestBuild B} (client : RestClient B)
    (key : Z) (param : Param) (tr : Transport) :
  (∀ e, ConfigBuilds (Api client) = inr e →
     ∃ s res, Do_run client key param tr = ([], s, Returns tt) ∧
              chan_buf (rc s) = [res] ∧ reports_by_value_only res e) ∧
  (∀ reqs, ConfigBuilds (Api client) = inl reqs → reqs !! key = None →
     ∃ s res, Do_run client key param tr = ([], s, Returns tt) ∧
              chan_buf (rc s) = [res] ∧
              reports_by_value_only res (NewRestClientError "2" "not find rest api")) ∧
  (∀ reqs build t tr' info,
     ConfigBuilds (Api client) = inl reqs → reqs !! key = Some build →
     BuildRequest build client key param
       (callerFileInfo "rest_client/rest_client.go" 1 15) tr = (t, tr', Panics info) →
     ∃ s res, Do_run client key param tr = (t, s, Returns tt) ∧
              chan_buf (rc s) = [res] ∧
              reports_by_value_only res (NewRestClientError "3" ("panic " +:+ info))).
Proof.
  split_and!.
  - intros e HB. do 2 eexists. split; [by apply Do_ConfigBuilds_error|].
    split; [done|]. apply error_result_reports.
  - intros reqs HB Hk. do 2 eexists. split; [by eapply Do_key_absent|].
    split; [done|]. apply error_result_reports.
  - intros reqs build t tr' info HB Hk Hrun. do 2 eexists.
    split; [by eapply Do_build_panics|]. split; [done|]. apply error_result_reports.
Qed.

Lemma Do_error_results_have_nil_event_witness :
  ∃ s res,
    @Do_run _ (AppRestBuild_RestBuild gjson.Get (example_env "{}"))
      (example_client "127.0.0.1:8080") ProductAdd (Marshals "{}") example_transport =
      ([RequestStart "POST" "127.0.0.1:8080/jp/product"], s, Returns tt) ∧
    chan_buf (rc s) = [res] ∧
    @reports_by_value_only _ (AppRestBuild_RestBuild gjson.Get (example_env "{}")) res
      (NewRestClientError "3" ("panic " +:+ nil_dereference)).
Proof.
  eapply (proj2 (proj2 (@Do_error_results_have_nil_event _
            (AppRestBuild_RestBuild gjson.Get (example_env "{}"))
            (example_client "127.0.0.1:8080") ProductAdd (Marshals "{}")
            example_transport)));
    [reflexivity | reflexivity | vm_compute; reflexivity].
Defined.

(** ** Reading a live response *)

(** On a live result with an observer every [Read] that reaches the body
    calls [ResponseFinish] once, whatever the body reported. *)
Lemma Read_live_fires_finish {B : Type} (res : RestResult B) (r : Response) (p : bytes) :
  err res = None → (bodyReadOffset res < 0)%Z → response res = Some r →
  event res = Some RestEventObserver →
  ∃ res' ret,
    Read p res =
      ((if decide (read_n ret > 0)%Z then [ResponseRead (delivered ret)] else []) ++
       [ResponseFinish (if decide (read_err ret = Some io_EOF) then None else read_err ret)],
       res', Returns ret).
Proof.
  intros Herr Hoff Hresp Hev. unfold Read, bind, get. cbn [fst snd].
  rewrite Herr, decide_False by lia. rewrite Hresp, Hev.
  unfold response_Body_Read, zoom, Stream_Read. cbn [Body].
  destruct (Body r) as [|st rest].
  - exists (set_response (Some {| StatusCode := StatusCode r;
                                  Header := Header r;
                                  Body := [] |}) res),
           {| read_n := 0; read_err := Some io_EOF; read_p := p |}.
    cbn [read_n read_err].
    rewrite (decide_False (P := (0 > 0)%Z)) by lia.
    rewrite !(decide_True (P := Some io_EOF = Some io_EOF)) by done.
    reflexivity.
  - destruct (decide (blen (step_data st) ≤ blen p)%Z) as [Hfit|Hbig].
    + set (ret0 := {| read_n := blen (step_data st); read_err := step_err st;
                      read_p := copy_head p (blen (step_data st)) (step_data st) |}).
      destruct (decide (step_err st = Some io_EOF)) as [He|He].
      * exists (set_response (Some {| StatusCode := StatusCode r;
                                      Header := Header r;
                                      Body := rest |}) res), ret0.
        cbn [read_n read_err ret0].
        rewrite !(decide_True (P := step_err st = Some io_EOF)) by done.
        destruct (decide (blen (step_data st) > 0)%Z); reflexivity.
      * exists (set_err (step_err st)
                  (set_response (Some {| StatusCode := StatusCode r;
                                         Header := Header r;
                                         Body := rest |}) res)), ret0.
        cbn [read_n read_err ret0].
        rewrite !(decide_False (P := step_err st = Some io_EOF)) by done.
        destruct (decide (blen (step_data st) > 0)%Z); reflexivity.
    + set (ret0 := {| read_n := blen p; read_err := None;
                      read_p := copy_head p (blen p) (take (length p) (step_data st)) |}).
      exists (set_err None
                (set_response
                   (Some {| StatusCode := StatusCode r;
                            Header := Header r;
                            Body :=
                              {| step_data := drop (length p) (step_data st);
                                 step_err := step_err st |} :: rest |}) res)), ret0.
      cbn [read_n read_err ret0].
      rewrite !(decide_False (P := None = Some io_EOF)) by done.
      destruct (decide (blen p > 0)%Z); reflexivity.
Qed.

(** C4 (the code departs from it): on a live result whose body delivers two
    bytes and then ends, the first read, an ordinary partial read that
    returns two bytes and a nil error, already calls [ResponseFinish(nil)],
    and the read that meets the end of the data calls it again. *)
Theorem live_read_fires_finish_on_partial_read :
  ∃ (res0 res1 res2 : RestResult unit) (r1 r2 : ReadRet),
    NewRestResult None (Some example_live) (Some RestEventObserver) tt =
      ([ResponseHeader 200 None], tt, Returns res0) ∧
    Read (buffer 8) res0 =
      ([ResponseRead (list_ascii_of_string "ab"); ResponseFinish None], res1, Returns r1) ∧
    read_n r1 = 2%Z ∧ read_err r1 = None ∧
    Read (buffer 8) res1 = ([ResponseFinish None], res2, Returns r2) ∧
    read_n r2 = 0%Z ∧ read_err r2 = Some io_EOF ∧
    count_ResponseFinish (Reads [buffer 8; buffer 8] res0).1.1 = 2%nat.
Proof. do 5 eexists. split_and!; vm_compute; reflexivity. Qed.

(** The logging observer of the package then logs the call twice. *)
Example live_read_logs_twice :
  length (AppRestEvent_observe (NewAppRestEvent true)
            (Reads [buffer 8; buffer 8]
               {| event := Some RestEventObserver; build := @None unit;
                  response := Some example_live; body := ""; bodyReadOffset := -1;
                  err := None |}).1.1).2 = 2%nat.
Proof. vm_compute. reflexivity. Qed.

(** A live result made without an observer, which [NewRestResult] allows,
    faults on the first read that delivers a byte: the call of
    [ResponseRead] is the one call on the event that is not guarded. *)
Example live_read_nil_event_panics :
  (Read (buffer 8)
     {| event := None; build := @None unit; response := Some example_live; body := "";
        bodyReadOffset := -1; err := None |}).2 = Panics nil_dereference.
Proof. vm_compute. reflexivity. Qed.

(** The add operation of the example against a service that answers: the
    observer sees the start of the request, the form body as the transport
    reads it, and the response headers; the result is delivered once. *)
Example Do_ProductAdd_scenario :
  ∃ s res,
    @Do_run _ (AppRestBuild_RestBuild gjson.Get (example_env "{}"))
      (example_client "http://127.0.0.1:8080") ProductAdd
      (Marshals (quoted "{'id':'111'}")) example_transport =
      ([RequestStart "POST" "http://127.0.0.1:8080/jp/product";
        RequestRead (list_ascii_of_string
          ("app=hjx&content=%7B%22id%22%3A%22111%22%7D&method=add" +:+
           "&sign=e179a51dbce2d08f122d66be0182e4a9" +:+
           "&timestamp=2006-01-02+15%3A04%3A05&token=&version=1.0"));
        ResponseHeader 200 (Some ∅)], s, Returns tt) ∧
    yields_one_then_closes (rc s) res ∧
    Err res = None ∧
    transport s = example_transport.
Proof.
  do 2 eexists. split; [vm_compute; reflexivity|].
  split; [apply delivered_closed_yields | done].
Qed.

(** ** The verdict on a body *)

Lemma gjson_missing_String (t : gjson.Result) :
  gjson.Exists t = false → gjson.String t = "".
Proof.
  unfold gjson.Exists, gjson.String. intros Hex.
  apply bool_decide_eq_false in Hex.
  destruct (gjson.Type' t); try done; exfalso; apply Hex; by left.
Qed.

Lemma contains_app_r (pre s : string) : contains (pre +:+ s) s.
Proof. exists pre, "". by rewrite string_app_nil_r. Qed.

Lemma contains_app_l (s sub post : string) : contains s sub → contains (s +:+ post) sub.
Proof.
  intros (before & after & ->). exists before, (after +:+ post).
  by rewrite !string_app_assoc.
Qed.

Lemma contains_empty (s : string) : contains s "".
Proof. by exists "", s. Qed.

Section check_facts.
Variable gjson_Get : string → string → gjson.Result.
Implicit Types (clt : AppRestBuild) (text : string).

Lemma CheckJsonResult_ok clt text :
  gjson.String (gjson_Get text "result.code") = "200" →
  gjson.String (gjson_Get text "result.state") = "ok" →
  CheckJsonResult gjson_Get clt text = None.
Proof.
  intros Hc Hs. unfold CheckJsonResult. rewrite Hc, Hs.
  by rewrite decide_False by (intros [?|?]; done).
Qed.

Lemma CheckJsonResult_fail clt text :
  ¬ (gjson.String (gjson_Get text "result.code") = "200" ∧
     gjson.String (gjson_Get text "result.state") = "ok") →
  CheckJsonResult gjson_Get clt text =
    Some (NewAppClientError
            (gjson.String (gjson_Get text "result.code"))
            (gjson.String (gjson_Get text "result.state"))
            ("server return fail:" +:+
               (if decide (len (gjson.String (gjson_Get text "result.message")) = 0)%Z
                then text
                else gjson.String (gjson_Get text "result.message")))).
Proof.
  intros Hne. unfold CheckJsonResult. rewrite decide_True; [done|].
  destruct (decide (gjson.String (gjson_Get text "result.code") = "200")) as [Hc|Hc];
    [|by left].
  destruct (decide (gjson.String (gjson_Get text "result.state") = "ok")) as [Hs|Hs];
    [|by right].
  by destruct Hne.
Qed.
End check_facts.

(** C3, as the claim has it, fails: a body with no [result] member at all
    is refused. *)
Lemma CheckJsonResult_refuses_absent_marker :
  gjson.Exists (gjson.Get (quoted "{'data':{'id':'111'}}") "result.code") = false ∧
  gjson.Exists (gjson.Get (quoted "{'data':{'id':'111'}}") "result.state") = false ∧
  CheckJsonResult gjson.Get example_build (quoted "{'data':{'id':'111'}}") =
    Some (NewAppClientError "" ""
            ("server return fail:" +:+ quoted "{'data':{'id':'111'}}")) ∧
  CheckJsonResult gjson.Get example_build (quoted "{'data':{'id':'111'}}") ≠ None.
Proof. split_and!; try (vm_compute; reflexivity). vm_compute. discriminate. Qed.

(** C3 (amended): a body in which neither [result.code] nor [result.state]
    is present is a failure: [CheckJsonResult] returns the service-level
    error with empty code and sub-code, whose message is the fixed prefix
    followed by [result.message] or, when that is empty, by the whole
    body.  It returns nil only when the code is 200 and the state is ok. *)
Theorem CheckJsonResult_absent_marker (gjson_Get : string → string → gjson.Result)
    (clt : AppRestBuild) (text : string) :
  (gjson.Exists (gjson_Get text "result.code") = false →
   gjson.Exists (gjson_Get text "result.state") = false →
   CheckJsonResult gjson_Get clt text =
     Some (NewAppClientError "" ""
             ("server return fail:" +:+
                (if decide (len (gjson.String (gjson_Get text "result.message")) = 0)%Z
                 then text
                 else gjson.String (gjson_Get text "result.message"))))) ∧
  (CheckJsonResult gjson_Get clt text = None ↔
   gjson.String (gjson_Get text "result.code") = "200" ∧
   gjson.String (gjson_Get text "result.state") = "ok").
Proof.
  split.
  - intros Hc%gjson_missing_String Hs%gjson_missing_String.
    rewrite CheckJsonResult_fail; [by rewrite Hc, Hs|].
    rewrite Hc. by intros [? _].
  - split.
    + intros Hnone.
      destruct (decide (gjson.String (gjson_Get text "result.code") = "200" ∧
                        gjson.String (gjson_Get text "result.state") = "ok"))
        as [Hok|Hne]; [done|].
      rewrite CheckJsonResult_fail in Hnone by done. discriminate Hnone.
    + intros [Hc Hs]. by apply CheckJsonResult_ok.
Qed.

Lemma CheckJsonResult_absent_marker_witness :
  CheckJsonResult gjson.Get example_build (quoted "{'data':{'id':'111'}}") =
    Some (NewAppClientError "" ""
            ("server return fail:" +:+
               (if decide (len (gjson.String
                                  (gjson.Get (quoted "{'data':{'id':'111'}}")
                                     "result.message")) = 0)%Z
                then quoted "{'data':{'id':'111'}}"
                else gjson.String
                       (gjson.Get (quoted "{'data':{'id':'111'}}") "result.message")))).
Proof.
  apply (proj1 (CheckJsonResult_absent_marker gjson.Get example_build
                  (quoted "{'data':{'id':'111'}}")));
    vm_compute; reflexivity.
Defined.

(** C8: [CheckJsonResult] returns nil when [result.code] is 200 and
    [result.state] is ok; otherwise it returns the service-level error that
    carries the remote code and state and whose message contains the remote
    message; for the failing body of the scenario the code is 500 and the
    message contains the words bad id. *)
Theorem CheckJsonResult_verdict (gjson_Get : string → string → gjson.Result)
    (clt : AppRestBuild) (text : string) :
  let code := gjson.String (gjson_Get text "result.code") in
  let state := gjson.String (gjson_Get text "result.state") in
  let message := gjson.String (gjson_Get text "result.message") in
  (code = "200" ∧ state = "ok" → CheckJsonResult gjson_Get clt text = None) ∧
  (¬ (code = "200" ∧ state = "ok") →
     ∃ e : AppClientError,
       CheckJsonResult gjson_Get clt text = Some (error_AppClient e) ∧
       Code e = code ∧ SubCode e = state ∧
       contains (Msg e) message ∧
       contains (Error (error_AppClient e)) message) ∧
  (∃ e : AppClientError,
     CheckJsonResult gjson.Get clt
       (quoted "{'result':{'code':'500','state':'fail','message':'bad id'}}") =
       Some (error_AppClient e) ∧
     Code e = "500" ∧ contains (Msg e) "bad id" ∧
     contains (Error (error_AppClient e)) "bad id") ∧
  CheckJsonResult gjson.Get clt
    (quoted "{'result':{'code':'200','state':'ok'},'data':{'id':'111'}}") = None.
Proof.
  intros code state message. split_and!.
  - intros [Hc Hs]. by apply CheckJsonResult_ok.
  - intros Hne. eexists. split; [by apply CheckJsonResult_fail|].
    cbn [Code SubCode Msg Error]. fold code state message. split_and!; try done.
    + destruct (decide (len message = 0)%Z) as [Hm|Hm]; [|apply contains_app_r].
      destruct message; [apply contains_empty | discriminate Hm].
    + apply contains_app_l.
      destruct (decide (len message = 0)%Z) as [Hm|Hm]; [|apply contains_app_r].
      destruct message; [apply contains_empty | discriminate Hm].
  - eexists. split; [vm_compute; reflexivity|]. cbn [Code Msg Error].
    split_and!; [done | | ].
    + apply (contains_app_r "server return fail:" "bad id").
    + apply contains_app_l, (contains_app_r "server return fail:" "bad id").
  - vm_compute. reflexivity.
Qed.

Lemma CheckJsonResult_verdict_witness :
  ∃ e : AppClientError,
    CheckJsonResult gjson.Get example_build
      (quoted "{'result':{'code':'403','state':'denied','message':'no access'}}") =
      Some (error_AppClient e) ∧
    Code e = "403" ∧ SubCode e = "denied" ∧
    contains (Msg e) "no access" ∧
    contains (Error (error_AppClient e)) "no access".
Proof.
  apply (proj1 (proj2 (CheckJsonResult_verdict gjson.Get example_build
    (quoted "{'result':{'code':'403','state':'denied','message':'no access'}}")))).
  vm_compute. intros [Hc _]. discriminate Hc.
Defined.


(** ** The request reader and the transport *)

Lemma RestRequestReader_Read_some (unread p : bytes) (ev : option RestEvent) :
  let n := if decide (unread = []) then 0%Z else Z.min (blen p) (blen unread) in
  RestRequestReader_Read p {| reader := Some unread; reader_event := ev |} =
    (match ev with
     | Some RestEventObserver =>
         if decide (n > 0)%Z
         then [RequestRead (take (Z.to_nat n) (copy_head p (blen p) unread))] else []
     | _ => []
     end,
     {| reader := Some (drop (Z.to_nat n) unread); reader_event := ev |},
     Returns (n, if decide (unread = []) then Some io_EOF else None,
              copy_head p (blen p) unread)).
Proof.
  intros n. unfold RestRequestReader_Read, bind, get, put. cbn [reader reader_event].
  fold n. destruct ev as [[|]|]; cbn; try done; destruct (decide (n > 0)%Z); done.
Qed.

Lemma request_bytes_app (t1 t2 : list Callback) :
  request_bytes (t1 ++ t2) = request_bytes t1 ++ request_bytes t2.
Proof.
  induction t1 as [|cb t1 IH]; [done|].
  destruct cb; cbn; rewrite ?IH, ?app_assoc; done.
Qed.

Lemma response_bytes_app (t1 t2 : list Callback) :
  response_bytes (t1 ++ t2) = response_bytes t1 ++ response_bytes t2.
Proof.
  induction t1 as [|cb t1 IH]; [done|].
  destruct cb; cbn; rewrite ?IH, ?app_assoc; done.
Qed.

(** One read of [k] bytes' room through the request reader. *)
Lemma RestRequestReader_Read_buffer (unread : bytes) (k : nat) (ev : option RestEvent) :
  ∃ t ret,
    RestRequestReader_Read (buffer k) {| reader := Some unread; reader_event := ev |} =
      (t, {| reader := Some (drop (k `min` length unread) unread); reader_event := ev |},
       Returns ret) ∧
    Forall (fun cb => is_RequestRead cb = true) t ∧
    (has_observer ev = false → t = []) ∧
    request_bytes t =
      (if has_observer ev then take (k `min` length unread) unread else []).
Proof.
  rewrite RestRequestReader_Read_some.
  assert (blen (buffer k) = Z.of_nat k) as Hk
    by (unfold blen, buffer; by rewrite length_replicate).
  rewrite Hk.
  destruct unread as [|c unread].
  { rewrite !(decide_True (P := @nil ascii = [])) by done. cbn [drop Z.to_nat].
    do 2 eexists. split; [by rewrite Nat.min_0_r|].
    destruct ev as [[|]|]; cbn; split_and!; try done.
    all: by rewrite ?take_nil. }
  rewrite !(decide_False (P := c :: unread = [])) by done.
  set (u := c :: unread).
  assert (Z.to_nat (Z.of_nat k `min` blen u) = (k `min` length u)%nat) as Hm
    by (unfold blen; lia).
  rewrite Hm.
  do 2 eexists. split; [done|].
  destruct ev as [[|]|]; cbn [has_observer]; try (split_and!; done).
  destruct (decide (Z.of_nat k `min` blen u > 0)%Z) as [Hpos|Hz].
  - split; [by repeat constructor|]. split; [done|].
    cbn [request_bytes]. rewrite app_nil_r.
    unfold copy_head. rewrite Hm.
    rewrite take_app_le by (rewrite length_take; lia).
    rewrite take_take. by rewrite Nat.min_id.
  - split; [done|]. split; [done|]. cbn [request_bytes].
    replace (k `min` length u)%nat with 0%nat by (unfold blen in Hz; lia). done.
Qed.

(** The transport reading the body: it gets consecutive pieces of the
    form, and the observer is told of each piece that is not empty. *)
Lemma drain_body_some (sizes : list nat) (unread : bytes) (ev : option RestEvent) :
  ∃ t,
    drain_body sizes {| reader := Some unread; reader_event := ev |} =
      (t, {| reader := Some (drop (sum_list sizes `min` length unread) unread);
             reader_event := ev |}, Returns tt) ∧
    Forall (fun cb => is_RequestRead cb = true) t ∧
    (has_observer ev = false → t = []) ∧
    request_bytes t =
      (if has_observer ev then take (sum_list sizes `min` length unread) unread else []).
Proof.
  revert unread. induction sizes as [|k sizes IH]; intros unread.
  - exists []. cbn. rewrite drop_0. split_and!; try done. by destruct (has_observer ev).
  - destruct (RestRequestReader_Read_buffer unread k ev) as (t1 & ret & HR & Ht1 & Hn1 & Hb1).
    destruct (IH (drop (k `min` length unread) unread)) as (t2 & HD & Ht2 & Hn2 & Hb2).
    exists (t1 ++ t2). cbn [drain_body]. unfold bind at 1. fold (buffer k). rewrite HR, HD.
    rewrite drop_drop, length_drop in *.
    replace (k `min` length unread + sum_list sizes `min` (length unread - k `min` length unread))%nat
      with (sum_list (k :: sizes) `min` length unread)%nat by (cbn; lia).
    split; [done|]. split; [by apply Forall_app|].
    split; [intros Hno; by rewrite Hn1, Hn2|].
    rewrite request_bytes_app, Hb1, Hb2. destruct (has_observer ev); [|done].
    rewrite take_take_drop. f_equal. cbn. lia.
Qed.

Lemma drain_body_none (sizes : list nat) (ev : option RestEvent) :
  drain_body sizes {| reader := None; reader_event := ev |} =
    ([], {| reader := None; reader_event := ev |}, Returns tt).
Proof. induction sizes as [|k sizes IH]; [done|]. cbn [drain_body]. unfold bind at 1. cbn. by rewrite IH. Qed.

(** [httpClient.Do] leaves the transport as it found it, returns what the
    round trip gives, and calls the observer of the body reader, if it has
    one, only for request bytes: the bytes of the form that the transport
    read. *)
Lemma httpClient_Do_spec (env : Env) (req : Request) (tr : Transport) :
  let rt := round_trip env req (ResponseHeaderTimeout tr) in
  ∃ t,
    httpClient_Do env req tr = (t, tr, Returns (round_result rt)) ∧
    Forall (fun cb => is_RequestRead cb = true) t ∧
    match req_Body req with
    | Some {| reader := Some unread; reader_event := ev |} =>
        (has_observer ev = false → t = []) ∧
        request_bytes t =
          (if has_observer ev
           then take (sum_list (body_reads rt) `min` length unread) unread else [])
    | _ => t = []
    end.
Proof.
  intros rt. unfold httpClient_Do, bind, get, locally. fold rt.
  destruct (req_Body req) as [[[unread|] ev]|].
  - destruct (drain_body_some (body_reads rt) unread ev) as (t & Hd & Ht & Hn & Hb).
    rewrite Hd. cbn. exists t. rewrite app_nil_r. split_and!; done.
  - rewrite drain_body_none. by exists [].
  - by exists [].
Qed.

(** ** The endpoint builder *)

(** [AppRestBuild_BuildRequest] in terms of its parts. *)
Lemma BuildRequest_unfold (env : Env) (clt : AppRestBuild)
    (client : RestClient AppRestBuild) (key : Z) (param : Param) (caller : RestCallerInfo) :
  AppRestBuild_BuildRequest env clt client key param caller =
  match GetConfig client with
  | inr err => NewRestResultFromError (Some err) (Some RestEventNoop)
  | inl (Config_other _) =>
      NewRestResultFromError (Some (NewRestClientError "11" "build config is wrong"))
        (Some RestEventNoop)
  | inl (Config_App config) =>
      let* transport := get in
      match param with
      | MarshalFails err => NewRestResultFromError (Some err) (build_event config)
      | Marshals jsonParam =>
          match Token (Api client) with
          | Some (inr err) => NewRestResultFromError (Some err) (build_event config)
          | tokenApi =>
              let token := build_token tokenApi in
              let dataSign :=
                AppRestParamSign "1.0" (AppKey config) (Method clt) (time_Now env)
                  jsonParam (AppSecret config) token in
              let paramStr :=
                build_paramStr
                  (build_reqParam (AppKey config) (Method clt) (time_Now env) jsonParam
                     dataSign token) in
              BuildRequest_send env clt client (build_event config)
                (ResponseHeaderTimeout transport)
                (build_apiUrl clt (AppUrl config) paramStr)
                (build_ioRead clt paramStr (build_event config))
          end
      end
  end.
Proof. reflexivity. Qed.


Ltac use_httpClient_Do :=
  match goal with
  | |- context [httpClient_Do ?e ?r ?s] =>
      let t := fresh "reads" in
      let Heq := fresh "Heq" in
      let Ht := fresh "Hreads" in
      let Hb := fresh "Hbody" in
      destruct (httpClient_Do_spec e r s) as (t & Heq & Ht & Hb); rewrite Heq; clear Heq
  end.

(** [BuildRequest] from the start of the request on, in full. *)
Lemma BuildRequest_send_spec (env : Env) (clt : AppRestBuild)
    (client : RestClient AppRestBuild) (event : option RestEvent)
    (apiUrl : string) (ioRead : option RestRequestReader) (tr : Transport) :
  event ≠ None →
  (∀ rd, ioRead = Some rd → reader_event rd = event) →
  match http_NewRequest env (HttpMethod clt) apiUrl with
  | Some e =>
      BuildRequest_send env clt client event (ResponseHeaderTimeout tr) apiUrl ioRead tr =
        if decide (is_Some (RequestId (Api client)) ∨ HttpMethod clt = http_MethodPost)
        then (told event (RequestStart (HttpMethod clt) apiUrl), tr, Panics nil_dereference)
        else (told event (RequestStart (HttpMethod clt) apiUrl) ++
              told event (ResponseFinish (Some e)), tr, Returns (failed_result e event))
  | None =>
      let req := build_request clt client apiUrl ioRead in
      let rt := round_trip env req (build_timeout clt tr) in
      ∃ reads,
        Forall (fun cb => is_RequestRead cb = true) reads ∧
        match ioRead with
        | Some {| reader := Some unread |} =>
            request_bytes reads =
              (if has_observer event
               then take (sum_list (body_reads rt) `min` length unread) unread else [])
        | _ => True
        end ∧
        (has_observer event = false ∨ ioRead = None → reads = []) ∧
        BuildRequest_send env clt client event (ResponseHeaderTimeout tr) apiUrl ioRead tr =
          match round_result rt with
          | inl response =>
              (told event (RequestStart (HttpMethod clt) apiUrl) ++ reads ++
               told event (ResponseHeader (StatusCode response) (Header response)),
               tr, Returns (live_result (Some clt) response event))
          | inr e =>
              (told event (RequestStart (HttpMethod clt) apiUrl) ++ reads ++
               told event (ResponseFinish (Some e)), tr, Returns (failed_result e event))
          end
  end.
Proof.
  intros Hev Hrd. destruct tr as [ht].
  unfold BuildRequest_send, build_request, build_timeout. cbn [ResponseHeaderTimeout].
  destruct (http_NewRequest env (HttpMethod clt) apiUrl) as [e|].
  - destruct event as [[|]|]; [| |done];
      destruct (RequestId (Api client)) as [rid|];
      destruct (decide (HttpMethod clt = http_MethodPost)) as [Hp|Hp];
      cbn; try rewrite Hp; cbn;
      first [ rewrite decide_True by (first [by left; eexists | by right]); reflexivity
            | rewrite decide_False by (intros [[? ?]|?]; done); reflexivity ].
  - assert (∀ ev unread, ioRead = Some {| reader := Some unread; reader_event := ev |} →
            ev = event) as Hrd'.
    { intros ev unread Hio. by apply Hrd in Hio. }
    destruct event as [[|]|]; [| |done];
      destruct (RequestId (Api client)) as [rid|];
      destruct (decide (HttpMethod clt = http_MethodPost)) as [Hp|Hp];
      destruct (decide (Timeout clt > 0)%Z) as [Hto|Hto];
      unfold bind, call, ret, panic, put, told; cbn [has_observer];
      use_httpClient_Do; cbn [ResponseHeaderTimeout] in *;
      exists reads; (split; [done|]);
      cbn [req_Body set_req_Header] in Hbody;
      (destruct ioRead as [[[unread|] ev]|];
       [ specialize (Hrd' ev unread eq_refl); subst ev; cbn [has_observer] in Hbody;
         destruct Hbody as [Hno Hbytes]
       | | ]);
      (split; [done|]);
      (split; [intros [?|?]; by auto|]);
      destruct (round_result _) as [response|e']; reflexivity.
Qed.

Lemma BuildRequest_send_nil_event (env : Env) (clt : AppRestBuild)
    (client : RestClient AppRestBuild) (headerTime : Z)
    (apiUrl : string) (ioRead : option RestRequestReader) (tr : Transport) :
  BuildRequest_send env clt client None headerTime apiUrl ioRead tr =
    ([], tr, Panics nil_dereference).
Proof. reflexivity. Qed.

Lemma build_ioRead_event (clt : AppRestBuild) (paramStr : string) (event : option RestEvent)
    (rd : RestRequestReader) :
  build_ioRead clt paramStr event = Some rd → reader_event rd = event.
Proof. unfold build_ioRead. case_decide; [done|]. by intros [= <-]. Qed.

Lemma NewRestResultFromError_run {B St : Type} (e : error) (event : option RestEvent)
    (s : St) :
  @NewRestResultFromError B St (Some e) event s =
    (told event (ResponseFinish (Some e)), s, Returns (failed_result e event)).
Proof. by destruct event as [[|]|]. Qed.

Lemma build_trace_ok_send (event : option RestEvent) (method url : string)
    (reads : list Callback) (cb : Callback) :
  Forall (fun cb => is_RequestRead cb = true) reads →
  (has_observer event = false → reads = []) →
  ((∃ code header, cb = ResponseHeader code header) ∨ ∃ e, cb = ResponseFinish (Some e)) →
  build_trace_ok (told event (RequestStart method url) ++ reads ++ told event cb).
Proof.
  intros Hreads Hno Hcb. unfold told. destruct (has_observer event).
  - right; right. exists method, url, reads, [cb]. split; [done|]. split; [done|].
    right. destruct Hcb as [(c & h & ->)|(e & ->)]; [left; by do 2 eexists | right; by eexists].
  - rewrite Hno by done. by left.
Qed.

Lemma bind_get_run {St A : Type} (k : St → M St A) (s : St) : bind get k s = k s s.
Proof. unfold bind, get. by destruct (k s s) as [[t s'] o]. Qed.

(** The transport setting and the callbacks of a call of [BuildRequest]. *)
Lemma BuildRequest_shape (env : Env)
    (clt : AppRestBuild) (client : RestClient AppRestBuild) (key : Z) (param : Param)
    (caller : RestCallerInfo) (tr : Transport) :
  (AppRestBuild_BuildRequest env clt client key param caller tr).1.2 = tr ∧
  build_trace_ok (AppRestBuild_BuildRequest env clt client key param caller tr).1.1.
Proof.
  rewrite BuildRequest_unfold.
  destruct (GetConfig client) as [[config|name]|e]; [| by split; [|left] ..].
  rewrite !bind_get_run.
  assert (∀ e, build_trace_ok (told (build_event config) (ResponseFinish (Some e)))) as Hfin.
  { intros e. unfold told. destruct (has_observer _); [right; left; by eexists | by left]. }
  destruct param as [jsonParam|e].
  2: { rewrite NewRestResultFromError_run. cbn [fst snd]. split; [done | apply Hfin]. }
  assert (∀ tokenApi,
    let token := build_token tokenApi in
    let dataSign := AppRestParamSign "1.0" (AppKey config) (Method clt) (time_Now env)
                      jsonParam (AppSecret config) token in
    let paramStr := build_paramStr (build_reqParam (AppKey config) (Method clt)
                      (time_Now env) jsonParam dataSign token) in
    let run := BuildRequest_send env clt client (build_event config)
                 (ResponseHeaderTimeout tr) (build_apiUrl clt (AppUrl config) paramStr)
                 (build_ioRead clt paramStr (build_event config)) tr in
    run.1.2 = tr ∧ build_trace_ok run.1.1) as Hsend.
  { intros tokenApi token dataSign paramStr run. subst run.
    destruct (build_event config) as [ev|] eqn:Hevent.
    2: { rewrite BuildRequest_send_nil_event. by split; [|left]. }
    pose proof (BuildRequest_send_spec env clt client (Some ev)
                  (build_apiUrl clt (AppUrl config) paramStr)
                  (build_ioRead clt paramStr (Some ev)) tr) as Hspec.
    specialize (Hspec ltac:(done) (build_ioRead_event clt paramStr (Some ev))).
    destruct (http_NewRequest env (HttpMethod clt) _) as [e|].
    - rewrite Hspec. case_decide; cbn [fst snd]; (split; [done|]).
      + unfold told. destruct (has_observer _); [|by left].
        right; right. exists (HttpMethod clt), (build_apiUrl clt (AppUrl config) paramStr), [], [].
        split; [done|]. split; [apply Forall_nil_2|]. by left.
      + apply (build_trace_ok_send (Some ev) _ _ []); [apply Forall_nil_2 | done |].
        right. by eexists.
    - destruct Hspec as (reads & Hreads & _ & Hno & ->).
      destruct (round_result _) as [response|e]; cbn [fst snd]; (split; [done|]).
      + apply build_trace_ok_send; [done | by auto |]. left. by do 2 eexists.
      + apply build_trace_ok_send; [done | by auto |]. right. by eexists. }
  destruct (Token (Api client)) as [[tokenTmp|e]|].
  - destruct (Hsend (Some (inl tokenTmp))) as [H1 H2].
    destruct (BuildRequest_send _ _ _ _ _ _ _ tr) as [[t s] o]. cbn in *. by subst.
  - rewrite NewRestResultFromError_run. cbn [fst snd]. split; [done | apply Hfin].
  - destruct (Hsend None) as [H1 H2].
    destruct (BuildRequest_send _ _ _ _ _ _ _ tr) as [[t s] o]. cbn in *. by subst.
Qed.

(** X1: every call of [BuildRequest], however it ends, leaves the
    response-header timeout of the shared transport as it found it: an
    override by the operation's [Timeout] lasts for the round trip only. *)
Theorem BuildRequest_restores_timeout (env : Env)
    (clt : AppRestBuild) (client : RestClient AppRestBuild) (key : Z) (param : Param)
    (caller : RestCallerInfo) (tr : Transport) :
  ∃ t o, AppRestBuild_BuildRequest env clt client key param caller tr = (t, tr, o).
Proof.
  pose proof (BuildRequest_shape env clt client key param caller tr) as [Htr _].
  destruct (AppRestBuild_BuildRequest _ _ _ _ _ _ tr) as [[t s] o]. cbn in Htr. subst s.
  by do 2 eexists.
Qed.


(** ** What goes on the wire *)

Lemma copy_to_Values (m : gmap string string) :
  foldl (fun d key => url.Values_Set d key (map_index m key)) ∅ (map_keys m) =
  (fun v => [v]) <$> m.
Proof.
  apply map_eq. intros k. rewrite foldl_Values_Set_lookup, lookup_fmap, lookup_empty.
  unfold map_keys, map_index. case_decide as Hin.
  - rewrite elem_of_elements, elem_of_dom in Hin. by destruct Hin as [v ->].
  - rewrite elem_of_elements, not_elem_of_dom in Hin. by rewrite Hin.
Qed.

Lemma build_paramStr_pairs (m : gmap string string) :
  build_paramStr m = encode_pairs (sorted_entries m).
Proof.
  unfold build_paramStr, url.Values_Encode, sorted_entries.
  rewrite Values_Encode_in_pairs, copy_to_Values.
  unfold map_keys. rewrite dom_fmap_L.
  rewrite Values_pairs_singleton; [done|].
  intros k. by rewrite elem_of_sort_Strings, elem_of_elements, elem_of_dom.
Qed.

Lemma build_reqParam_sign (appid method timestamp jsonParam dataSign : string)
    (token : option string) :
  build_reqParam appid method timestamp jsonParam dataSign token =
  <["sign" := dataSign]> (sign_reqParam "1.0" appid method timestamp jsonParam token).
Proof.
  unfold build_reqParam, sign_reqParam.
  destruct token as [t|]; destruct (decide (len method > 0)%Z);
    apply map_eq; intros k;
    rewrite !lookup_insert; repeat case_decide; simplify_eq; done.
Qed.

Lemma sorted_entries_elem (m : gmap string string) (name value : string) :
  (name, value) ∈ sorted_entries m ↔ m !! name = Some value.
Proof. apply elem_of_map_entries. Qed.

Lemma sorted_entries_names (m : gmap string string) :
  (sorted_entries m).*1 = sort_Strings (elements (dom m)).
Proof. apply fst_entries. Qed.

(** A call whose configuration, parameters and token are in order reaches
    the start of the request, with the fields encoded in ascending order of
    their names. *)
Lemma BuildRequest_ready (env : Env) (clt : AppRestBuild)
    (client : RestClient AppRestBuild) (key : Z) (jsonParam : string)
    (caller : RestCallerInfo) (tr : Transport) (config : AppRestConfig) :
  GetConfig client = inl (Config_App config) →
  (∀ e, Token (Api client) ≠ Some (inr e)) →
  let token := build_token (Token (Api client)) in
  let dataSign := AppRestParamSign "1.0" (AppKey config) (Method clt) (time_Now env)
                    jsonParam (AppSecret config) token in
  let paramStr :=
    encode_pairs (sorted_entries
      (<["sign" := dataSign]>
         (sign_reqParam "1.0" (AppKey config) (Method clt) (time_Now env) jsonParam token))) in
  AppRestBuild_BuildRequest env clt client key (Marshals jsonParam) caller tr =
  BuildRequest_send env clt client (build_event config) (ResponseHeaderTimeout tr)
    (build_apiUrl clt (AppUrl config) paramStr)
    (build_ioRead clt paramStr (build_event config)) tr.
Proof.
  intros Hcfg Htok token dataSign paramStr.
  rewrite BuildRequest_unfold, Hcfg, bind_get_run.
  subst paramStr. rewrite <- build_reqParam_sign, <- build_paramStr_pairs.
  destruct (Token (Api client)) as [[tokenTmp|e]|] eqn:HT; try done.
  by destruct (Htok e).
Qed.

Lemma request_bytes_told (event : option RestEvent) (cb : Callback) :
  is_RequestRead cb = false → request_bytes (told event cb) = [].
Proof. unfold told. destruct (has_observer event); [|done]. by destruct cb. Qed.

(** X3: what [BuildRequest] puts on the wire is what it signed, plus the
    signature: the fields are the signed fields and the field sign, encoded
    in ascending order of the names; a GET request carries them in the URL
    and has no body, any other request carries them in the body, of which
    the observer is shown the part the transport read. *)
Theorem BuildRequest_sends_what_it_signs (env : Env) (clt : AppRestBuild)
    (client : RestClient AppRestBuild) (key : Z) (jsonParam : string)
    (caller : RestCallerInfo) (tr : Transport) (config : AppRestConfig) :
  GetConfig client = inl (Config_App config) →
  (∀ e, Token (Api client) ≠ Some (inr e)) →
  build_event config = Some RestEventObserver →
  let token := build_token (Token (Api client)) in
  let dataSign := AppRestParamSign "1.0" (AppKey config) (Method clt) (time_Now env)
                    jsonParam (AppSecret config) token in
  let fields :=
    sorted_entries
      (<["sign" := dataSign]>
         (sign_reqParam "1.0" (AppKey config) (Method clt) (time_Now env) jsonParam token)) in
  (∀ name value,
     (name, value) ∈ fields ↔
     (name = "sign" ∧ value = dataSign) ∨
     (name, value) ∈ signed_fields "1.0" (AppKey config) (Method clt) (time_Now env)
                       jsonParam token) ∧
  Sorted String.le fields.*1 ∧
  ∃ rest s o,
    AppRestBuild_BuildRequest env clt client key (Marshals jsonParam) caller tr =
      (RequestStart (HttpMethod clt)
         (build_apiUrl clt (AppUrl config) (encode_pairs fields)) :: rest, s, o) ∧
    (HttpMethod clt = http_MethodGet → request_bytes rest = []) ∧
    ∃ k, request_bytes rest = take k (list_ascii_of_string (encode_pairs fields)).
Proof.
  intros Hcfg Htok Hev token dataSign fields. split_and!.
  - intros name value. subst fields.
    rewrite sorted_entries_elem, signed_fields_elem, lookup_insert.
    rewrite <- sign_reqParam_lookup. case_decide as Hname.
    + subst name. split.
      * intros [= <-]. by left.
      * intros [[_ ->]|Hin]; [done|].
        apply sign_reqParam_lookup in Hin as [Hin _]. by vm_compute in Hin.
    + split; [by right|]. by intros [[-> _]|?].
  - subst fields. rewrite sorted_entries_names. apply Sorted_merge_sort; apply _.
  - rewrite (BuildRequest_ready env clt client key jsonParam caller tr config) by done.
    fold token dataSign fields. rewrite Hev.
    pose proof (BuildRequest_send_spec env clt client (Some RestEventObserver)
                  (build_apiUrl clt (AppUrl config) (encode_pairs fields))
                  (build_ioRead clt (encode_pairs fields) (Some RestEventObserver)) tr
                  ltac:(done) (build_ioRead_event clt _ _)) as Hspec.
    destruct (http_NewRequest env (HttpMethod clt) _) as [e|].
    + rewrite Hspec. unfold told. cbn [has_observer]. case_decide.
      * do 3 eexists. split; [reflexivity|]. split; [done|]. by exists 0%nat.
      * do 3 eexists. split; [reflexivity|]. split; [done|]. by exists 0%nat.
    + destruct Hspec as (reads & Hreads & Hbytes & Hno & ->).
      assert (∃ last s o,
        match round_result (round_trip env
                (build_request clt client
                   (build_apiUrl clt (AppUrl config) (encode_pairs fields))
                   (build_ioRead clt (encode_pairs fields) (Some RestEventObserver)))
                (build_timeout clt tr)) with
        | inl response =>
            (told (Some RestEventObserver)
               (RequestStart (HttpMethod clt)
                  (build_apiUrl clt (AppUrl config) (encode_pairs fields))) ++
             reads ++
             told (Some RestEventObserver)
               (ResponseHeader (StatusCode response) (Header response)),
             tr, Returns (live_result (Some clt) response (Some RestEventObserver)))
        | inr e =>
            (told (Some RestEventObserver)
               (RequestStart (HttpMethod clt)
                  (build_apiUrl clt (AppUrl config) (encode_pairs fields))) ++
             reads ++ told (Some RestEventObserver) (ResponseFinish (Some e)),
             tr, Returns (failed_result e (Some RestEventObserver)))
        end =
        (RequestStart (HttpMethod clt)
           (build_apiUrl clt (AppUrl config) (encode_pairs fields)) :: reads ++ last, s, o) ∧
        request_bytes last = []) as (last & s & o & -> & Hlast).
      { destruct (round_result _); do 3 eexists; split; reflexivity. }
      do 3 eexists. split; [reflexivity|].
      rewrite request_bytes_app, Hlast, app_nil_r.
      unfold build_ioRead in *. case_decide as Hget.
      * rewrite Hno by auto. split; [done|]. by exists 0%nat.
      * split; [done|]. cbn [NewRestRequestReader has_observer] in Hbytes.
        rewrite Hbytes. by eexists.
Qed.

(** X4: a call that fails before the request is started returns a result
    that carries the error and leaves the transport alone: an unknown
    configuration name gives error 1 with the name in its message, a
    configuration of another type error 11, both without any callback; a
    parameter that cannot be encoded or a token that cannot be obtained
    gives that error, and the observer is told the finish with it and
    nothing else. *)
Theorem BuildRequest_preflight_failures (env : Env) (clt : AppRestBuild)
    (client : RestClient AppRestBuild) (key : Z) (param : Param)
    (caller : RestCallerInfo) (tr : Transport) :
  (∀ e, ConfigName (Api client) = inr e →
     AppRestBuild_BuildRequest env clt client key param caller tr =
       ([], tr, Returns (failed_result e (Some RestEventNoop)))) ∧
  (∀ name, ConfigName (Api client) = inl name → config client !! name = None →
     AppRestBuild_BuildRequest env clt client key param caller tr =
       ([], tr, Returns (failed_result
                           (NewRestClientError "1" ("rest config is exits:" +:+ name))
                           (Some RestEventNoop)))) ∧
  (∀ name other, ConfigName (Api client) = inl name →
     config client !! name = Some (Config_other other) →
     AppRestBuild_BuildRequest env clt client key param caller tr =
       ([], tr, Returns (failed_result (NewRestClientError "11" "build config is wrong")
                           (Some RestEventNoop)))) ∧
  (∀ name cfg e, ConfigName (Api client) = inl name →
     config client !! name = Some (Config_App cfg) →
     param = MarshalFails e ∨
     ((∃ jsonParam, param = Marshals jsonParam) ∧ Token (Api client) = Some (inr e)) →
     AppRestBuild_BuildRequest env clt client key param caller tr =
       (told (build_event cfg) (ResponseFinish (Some e)), tr,
        Returns (failed_result e (build_event cfg)))).
Proof.
  rewrite BuildRequest_unfold. unfold GetConfig. split_and!.
  - intros e ->. done.
  - intros name -> ->. done.
  - intros name other -> ->. done.
  - intros name cfg e -> -> [-> | [[jsonParam ->] ->]];
      by rewrite bind_get_run, NewRestResultFromError_run.
Qed.

(** X5: a request that [http.NewRequest] refuses: for a POST operation, or
    when the capability object supplies a request id, [BuildRequest] faults
    on the request that was not built, after the observer was told the start
    of the request; otherwise it returns the result that carries the error
    and tells the observer the finish with it. *)
Theorem BuildRequest_refused_request (env : Env) (clt : AppRestBuild)
    (client : RestClient AppRestBuild) (key : Z) (jsonParam : string)
    (caller : RestCallerInfo) (tr : Transport) (config : AppRestConfig) (e : error) :
  GetConfig client = inl (Config_App config) →
  (∀ e', Token (Api client) ≠ Some (inr e')) →
  build_event config ≠ None →
  let token := build_token (Token (Api client)) in
  let dataSign := AppRestParamSign "1.0" (AppKey config) (Method clt) (time_Now env)
                    jsonParam (AppSecret config) token in
  let apiUrl :=
    build_apiUrl clt (AppUrl config)
      (encode_pairs (sorted_entries
         (<["sign" := dataSign]>
            (sign_reqParam "1.0" (AppKey config) (Method clt) (time_Now env)
               jsonParam token)))) in
  http_NewRequest env (HttpMethod clt) apiUrl = Some e →
  AppRestBuild_BuildRequest env clt client key (Marshals jsonParam) caller tr =
    if decide (is_Some (RequestId (Api client)) ∨ HttpMethod clt = http_MethodPost)
    then (told (build_event config) (RequestStart (HttpMethod clt) apiUrl), tr,
          Panics nil_dereference)
    else (told (build_event config) (RequestStart (HttpMethod clt) apiUrl) ++
          told (build_event config) (ResponseFinish (Some e)), tr,
          Returns (failed_result e (build_event config))).
Proof.
  intros Hcfg Htok Hev token dataSign apiUrl Hrefused.
  rewrite (BuildRequest_ready env clt client key jsonParam caller tr config) by done.
  fold token dataSign apiUrl.
  match goal with
  | |- context [build_ioRead clt ?p _] =>
      pose proof (BuildRequest_send_spec env clt client (build_event config) apiUrl
                    (build_ioRead clt p (build_event config)) tr Hev
                    (build_ioRead_event clt _ _)) as Hspec
  end.
  by rewrite Hrefused in Hspec.
Qed.


(** ** Results that carry an error *)

Lemma Read_refused {B : Type} (res : RestResult B) (e : error) (p : bytes) :
  err res = Some e → Read p res = ([], res, Returns (refused_read e p)).
Proof. intros He. unfold Read, bind, get. cbn. by rewrite He. Qed.

Lemma Reads_refused {B : Type} (res : RestResult B) (e : error) (ps : list bytes) :
  err res = Some e → Reads ps res = ([], res, Returns (refused_read e <$> ps)).
Proof.
  intros He. induction ps as [|p ps IH]; [done|].
  cbn [Reads]. unfold bind at 1. rewrite (Read_refused res e p He).
  unfold bind at 1. by rewrite IH.
Qed.

(** ** Live results *)

Lemma delivered_copy_head_any (p src : bytes) (k : Z) (e : option error) :
  blen src = k → (k ≤ blen p)%Z →
  delivered {| read_n := k; read_err := e; read_p := copy_head p k src |} = src.
Proof.
  intros Hk Hp. unfold delivered, copy_head. cbn [read_n read_p].
  rewrite Hk, Z.min_id.
  assert (Z.to_nat k = length src) as -> by (unfold blen in Hk; lia).
  by rewrite firstn_all, take_app_length.
Qed.

(** One [Read] on a live result whose event is not nil. *)
Lemma Read_live_step {B : Type} (res : RestResult B) (r : Response) (p : bytes) :
  err res = None → (bodyReadOffset res < 0)%Z → response res = Some r →
  event res ≠ None →
  ∃ ret b',
    Read p res =
      ((if decide (read_n ret > 0)%Z then told (event res) (ResponseRead (delivered ret))
        else []) ++
       told (event res)
         (ResponseFinish (if decide (read_err ret = Some io_EOF) then None
                          else read_err ret)),
       set_err (if decide (read_err ret = Some io_EOF) then None else read_err ret)
         (set_response (Some {| StatusCode := StatusCode r; Header := Header r;
                                Body := b' |}) res),
       Returns ret) ∧
    delivered ret ++ stream_data b' = stream_data (Body r) ∧
    (0 ≤ read_n ret ≤ blen p)%Z ∧
    read_n ret = blen (delivered ret) ∧
    match Body r with
    | [] => ret = {| read_n := 0; read_err := Some io_EOF; read_p := p |}
    | st :: _ =>
        if decide (blen (step_data st) ≤ blen p)%Z
        then delivered ret = step_data st ∧ read_err ret = step_err st
        else delivered ret = take (length p) (step_data st) ∧ read_err ret = None
    end.
Proof.
  intros Herr Hoff Hresp Hev. unfold Read, bind, get. cbn [fst snd].
  rewrite Herr, decide_False by lia. rewrite Hresp.
  unfold response_Body_Read, zoom, Stream_Read. cbn [Body].
  pose proof (blen_nonneg p) as Hp.
  destruct (Body r) as [|st rest].
  - exists {| read_n := 0; read_err := Some io_EOF; read_p := p |}, [].
    cbn [read_n read_err].
    rewrite !(decide_False (P := (0 > 0)%Z)) by lia.
    rewrite !(decide_True (P := Some io_EOF = Some io_EOF)) by done.
    split; [|by split_and!].
    destruct res as [ev bd rs bo off er]; cbn in *; simplify_eq.
    destruct ev as [[|]|]; [| |done]; reflexivity.
  - destruct (decide (blen (step_data st) ≤ blen p)%Z) as [Hfit|Hbig].
    + set (ret0 := {| read_n := blen (step_data st); read_err := step_err st;
                      read_p := copy_head p (blen (step_data st)) (step_data st) |}).
      assert (delivered ret0 = step_data st) as Hd
        by (by apply delivered_copy_head_any).
      pose proof (blen_nonneg (step_data st)).
      exists ret0, rest. rewrite Hd. cbn [read_n read_err ret0].
      split; [|by split_and!].
      unfold delivered in Hd. cbn [read_n read_p ret0] in Hd.
      destruct res as [ev bd rs bo off er]; cbn in Herr, Hresp, Hev; simplify_eq.
      cbn [event].
      destruct ev as [[|]|]; [| |done];
        destruct (decide (step_err st = Some io_EOF)) as [He|He];
        destruct (decide (blen (step_data st) > 0)%Z);
        unfold told, call, call_if_set, put, ret; cbn [has_observer];
        rewrite ?Hd; reflexivity.
    + set (ret0 := {| read_n := blen p; read_err := None;
                      read_p := copy_head p (blen p) (take (length p) (step_data st)) |}).
      assert (blen (take (length p) (step_data st)) = blen p) as Hlen
        by (unfold blen in *; rewrite length_take; lia).
      assert (delivered ret0 = take (length p) (step_data st)) as Hd
        by (apply delivered_copy_head_any; [done | lia]).
      exists ret0, ({| step_data := drop (length p) (step_data st);
                       step_err := step_err st |} :: rest).
      rewrite Hd. cbn [read_n read_err ret0].
      rewrite !(decide_False (P := None = Some io_EOF)) by done.
      split; [|split_and!; try done; try lia].
      * unfold delivered in Hd. cbn [read_n read_p ret0] in Hd.
        destruct res as [ev bd rs bo off er]; cbn in Herr, Hresp, Hev; simplify_eq.
        cbn [event].
        destruct ev as [[|]|]; [| |done];
          destruct (decide (blen p > 0)%Z);
          unfold told, call, call_if_set, put, ret; cbn [has_observer];
          rewrite ?Hd; reflexivity.
      * unfold stream_data. cbn [fmap list_fmap mjoin list_join step_data].
        by rewrite app_assoc, take_drop.
Qed.

Lemma delivered_refused (e : error) (ps : list bytes) :
  mjoin (delivered <$> (refused_read e <$> ps)) = [].
Proof. induction ps as [|p ps IH]; [done|]. exact IH. Qed.

Lemma response_bytes_step (ev : option RestEvent) (d : bytes) (n : Z) (e : option error) :
  n = blen d →
  response_bytes ((if decide (n > 0)%Z then told ev (ResponseRead d) else []) ++
                  told ev (ResponseFinish e)) =
  (if has_observer ev then d else []).
Proof.
  intros ->. unfold told. rewrite response_bytes_app.
  destruct (has_observer ev); case_decide as Hn; cbn; rewrite ?app_nil_r; try done.
  destruct d; [done|]. unfold blen in Hn. cbn in Hn. lia.
Qed.

(** A sequence of [Read]s on a live result whose event is not nil. *)
Lemma Reads_live {B : Type} (ps : list bytes) (res : RestResult B) (r : Response) :
  err res = None → (bodyReadOffset res < 0)%Z → response res = Some r →
  event res ≠ None →
  ∃ t res' rs,
    Reads ps res = (t, res', Returns rs) ∧
    length rs = length ps ∧
    response_bytes t = (if has_observer (event res) then mjoin (delivered <$> rs) else []) ∧
    (∃ unread, mjoin (delivered <$> rs) ++ unread = stream_data (Body r)) ∧
    event res' = event res ∧ bodyReadOffset res' = bodyReadOffset res ∧
    build res' = build res ∧ body res' = body res.
Proof.
  revert res r. induction ps as [|p ps IH]; intros res r Herr Hoff Hresp Hev.
  - exists [], res, []. split_and!; try done.
    + by destruct (has_observer _).
    + by exists (stream_data (Body r)).
  - destruct (Read_live_step res r p Herr Hoff Hresp Hev)
      as (rr & b' & HRead & Hdata & Hn & Hlen & _).
    cbn [Reads]. unfold bind at 1. rewrite HRead.
    set (res1 := set_err _ _).
    destruct (decide (read_err rr = Some io_EOF)) as [Heof|Hne];
      [|destruct (read_err rr) as [e|] eqn:He].
    + destruct (IH res1 {| StatusCode := StatusCode r; Header := Header r; Body := b' |})
        as (t & res' & rs & HReads & Hl & Hb & [unread Hpre] & Hev' & Hoff' & Hbd & Hbo);
        try done.
      unfold bind at 1. rewrite HReads. cbn [ret].
      do 3 eexists. split; [reflexivity|]. cbn [Body] in Hpre.
      split_and!; try done.
      * cbn. by rewrite Hl.
      * rewrite app_nil_r, response_bytes_app, response_bytes_step, Hb by done.
        rewrite fmap_cons.
        change (mjoin (delivered rr :: (delivered <$> rs)))
          with (delivered rr ++ mjoin (delivered <$> rs)).
        cbn [event set_err set_response res1].
        by destruct (has_observer (event res)).
      * exists unread. rewrite fmap_cons.
        change (mjoin (delivered rr :: (delivered <$> rs)))
          with (delivered rr ++ mjoin (delivered <$> rs)).
        by rewrite <- app_assoc, Hpre.
    + (* the read failed: the error stays *)
      unfold bind at 1. rewrite (Reads_refused res1 e ps) by done. cbn [ret].
      do 3 eexists. split; [reflexivity|]. split_and!; try done.
      * cbn. by rewrite !length_fmap.
      * rewrite ?app_nil_r, response_bytes_step by done.
        rewrite fmap_cons.
        change (mjoin (delivered rr :: (delivered <$> (refused_read e <$> ps))))
          with (delivered rr ++ mjoin (delivered <$> (refused_read e <$> ps))).
        by rewrite (delivered_refused e ps), app_nil_r.
      * exists (stream_data b'). rewrite fmap_cons.
        change (mjoin (delivered rr :: (delivered <$> (refused_read e <$> ps))))
          with (delivered rr ++ mjoin (delivered <$> (refused_read e <$> ps))).
        by rewrite (delivered_refused e ps), app_nil_r.
    + destruct (IH res1 {| StatusCode := StatusCode r; Header := Header r; Body := b' |})
        as (t & res' & rs & HReads & Hl & Hb & [unread Hpre] & Hev' & Hoff' & Hbd & Hbo);
        try done.
      unfold bind at 1. rewrite HReads. cbn [ret].
      do 3 eexists. split; [reflexivity|]. cbn [Body] in Hpre.
      split_and!; try done.
      * cbn. by rewrite Hl.
      * rewrite app_nil_r, response_bytes_app, response_bytes_step, Hb by done.
        rewrite fmap_cons.
        change (mjoin (delivered rr :: (delivered <$> rs)))
          with (delivered rr ++ mjoin (delivered <$> rs)).
        cbn [event set_err set_response res1].
        by destruct (has_observer (event res)).
      * exists unread. rewrite fmap_cons.
        change (mjoin (delivered rr :: (delivered <$> rs)))
          with (delivered rr ++ mjoin (delivered <$> rs)).
        by rewrite <- app_assoc, Hpre.
Qed.

(** X7: on a live result with an event, a sequence of reads never faults;
    the bytes delivered are, in order, a prefix of what the response stream
    held; and an observer was shown, through [ResponseRead], exactly the
    bytes that were delivered. *)
Theorem live_reads_mirror_delivered_bytes {B : Type} (ps : list bytes)
    (res : RestResult B) (r : Response) :
  err res = None → (bodyReadOffset res < 0)%Z → response res = Some r →
  event res ≠ None →
  ∃ t res' rs,
    Reads ps res = (t, res', Returns rs) ∧
    length rs = length ps ∧
    response_bytes t = (if has_observer (event res) then mjoin (delivered <$> rs) else []) ∧
    (∃ unread, mjoin (delivered <$> rs) ++ unread = stream_data (Body r)).
Proof.
  intros Herr Hoff Hresp Hev.
  destruct (Reads_live ps res r Herr Hoff Hresp Hev)
    as (t & res' & rs & HReads & Hl & Hb & Hpre & _).
  by exists t, res', rs.
Qed.

(** X8: when a read of a live result meets an error other than the end of
    the data, the bytes that came with it are delivered, the observer is told
    the finish with the error, and the error stays on the result: [Err]
    returns it and every later read returns it with no byte, without touching
    the stream or the observer.  The end of the data is not kept as an
    error. *)
Theorem live_read_error_sticks {B : Type} (res : RestResult B) (r : Response)
    (p : bytes) (st : ReadStep) (rest : Stream) (e : error) :
  err res = None → (bodyReadOffset res < 0)%Z → response res = Some r →
  event res ≠ None →
  Body r = st :: rest → (blen (step_data st) ≤ blen p)%Z → step_err st = Some e →
  ∃ rr res',
    Read p res =
      ((if decide (blen (step_data st) > 0)%Z
        then told (event res) (ResponseRead (step_data st)) else []) ++
       told (event res) (ResponseFinish (if decide (e = io_EOF) then None else Some e)),
       res', Returns rr) ∧
    delivered rr = step_data st ∧ read_err rr = Some e ∧
    Err res' = (if decide (e = io_EOF) then None else Some e) ∧
    (e ≠ io_EOF →
     ∀ ps, Reads ps res' = ([], res', Returns (refused_read e <$> ps))).
Proof.
  intros Herr Hoff Hresp Hev HBody Hfit Hst.
  destruct (Read_live_step res r p Herr Hoff Hresp Hev)
    as (rr & b' & HRead & _ & _ & Hlen & Hcase).
  rewrite HBody, decide_True in Hcase by done. destruct Hcase as [Hd He].
  rewrite Hst in He. rewrite He, Hd, Hlen, Hd in HRead.
  assert ((if decide (Some e = Some io_EOF) then None else Some e) =
          (if decide (e = io_EOF) then None else Some e)) as Hdec.
  { destruct (decide (e = io_EOF)) as [->|Hne].
    - by rewrite decide_True.
    - rewrite decide_False; [done|]. by intros [= ->]. }
  rewrite !Hdec in HRead.
  do 2 eexists. split; [exact HRead|]. split_and!; try done.
  intros Hne ps. apply Reads_refused. cbn [err set_err]. by rewrite decide_False.
Qed.

(** ** Materializing a buffered result *)

Lemma set_bodyReadOffset_twice {B : Type} (a b : Z) (res : RestResult B) :
  set_bodyReadOffset a (set_bodyReadOffset b res) = set_bodyReadOffset a res.
Proof. done. Qed.

(** [ReadAll] on a buffered result, given reads enough for what is left. *)
Lemma ReadAll_buffered {B : Type} (fuel : nat) (res : RestResult B) (acc : bytes) :
  err res = None →
  (0 ≤ bodyReadOffset res ≤ blen (list_ascii_of_string (body res)))%Z →
  (1 ≤ fuel)%nat →
  (blen (list_ascii_of_string (body res)) - bodyReadOffset res ≤ 512 * Z.of_nat fuel)%Z →
  ReadAll fuel acc res =
    ([], set_bodyReadOffset (blen (list_ascii_of_string (body res))) res,
     Returns (acc ++ drop (Z.to_nat (bodyReadOffset res)) (list_ascii_of_string (body res)),
              None)).
Proof.
  revert res acc. induction fuel as [|fuel IH]; intros res acc Herr Hoff Hfuel Hroom; [lia|].
  destruct (Read_buffered res (replicate 512 "000"%char) Herr Hoff)
    as (r & HRead & Hn & Hle & Hn' & Hd & He).
  assert (blen (replicate 512 "000"%char) = 512%Z) as Hp by done.
  rewrite Hp in *.
  set (data := list_ascii_of_string (body res)) in *.
  set (off := bodyReadOffset res) in *.
  cbn [ReadAll]. unfold bind at 1. rewrite HRead.
  destruct (decide (blen data - off ≤ 512)%Z) as [Hlast|Hmore].
  - rewrite He. rewrite decide_True by done. unfold ret.
    rewrite Hn', Z.min_l in * by done.
    replace (off + (blen data - off))%Z with (blen data) by lia.
    rewrite app_nil_r, Hd.
    rewrite take_ge; [done|]. rewrite length_drop. unfold blen in *. lia.
  - rewrite He. rewrite Hn', Z.min_r in * by lia.
    rewrite (IH (set_bodyReadOffset (off + 512) res) (acc ++ delivered r)); try done.
    + cbn [body bodyReadOffset set_bodyReadOffset]. fold data.
      rewrite set_bodyReadOffset_twice.
      rewrite <- app_assoc, Hd.
      rewrite Z2Nat.inj_add by lia. rewrite <- drop_drop.
      by rewrite take_drop.
    + cbn [body bodyReadOffset set_bodyReadOffset]. fold data. lia.
    + lia.
    + cbn [body bodyReadOffset set_bodyReadOffset]. fold data. lia.
Qed.

Lemma call_if_set_told {St : Type} (ev : option RestEvent) (cb : Callback) (s : St) :
  call_if_set ev cb s = (told ev cb, s, Returns tt).
Proof. by destruct ev as [[]|]. Qed.

Lemma JsonResult_failed {B : Type} `{RestBuild B} (fuel : nat)
    (path : option (list string)) (res : RestResult B) (e : error) :
  err res = Some e →
  JsonResult_of fuel path res =
    (told (event res) (ResponseCheck (Some e)), res,
     Returns (NewJsonResultFromError (Some e))).
Proof.
  intros He. unfold JsonResult_of, with_defer, bind, get. rewrite He.
  unfold ret. rewrite call_if_set_told. unfold Err. by rewrite He.
Qed.

Lemma JsonResult_buffered {B : Type} `{RestBuild B} (fuel : nat)
    (path : option (list string)) (res : RestResult B) :
  err res = None →
  (0 ≤ bodyReadOffset res ≤ blen (list_ascii_of_string (body res)))%Z →
  (1 ≤ fuel)%nat →
  (blen (list_ascii_of_string (body res)) - bodyReadOffset res ≤ 512 * Z.of_nat fuel)%Z →
  JsonResult_of fuel path res =
    (told (event res) (ResponseCheck (json_verdict res (unread res))),
     judged (json_verdict res (unread res)) res,
     json_return (json_verdict res (unread res)) (unread res) path).
Proof.
  intros He Hoff Hfuel Hroom.
  unfold JsonResult_of, with_defer, bind at 1, get. rewrite He.
  unfold bind at 1. rewrite (ReadAll_buffered fuel res [] He Hoff Hfuel Hroom).
  rewrite app_nil_l. fold (unread res).
  unfold bind at 1, get.
  unfold json_verdict, json_return, json_outcome, judged.
  cbn [build set_bodyReadOffset].
  destruct (build res ≫= RestJsonResult) as [check|] eqn:Hb.
  - unfold bind, put. destruct (check (unread res)) as [e|] eqn:Hc.
    + unfold ret. by rewrite call_if_set_told.
    + destruct path as [[|p0 ps]|]; unfold ret, panic; by rewrite call_if_set_told.
  - assert (set_err None (set_bodyReadOffset (blen (list_ascii_of_string (body res))) res)
            = set_bodyReadOffset (blen (list_ascii_of_string (body res))) res) as ->.
    { destruct res; cbn in *; by subst. }
    destruct path as [[|p0 ps]|]; unfold bind, ret, panic; rewrite call_if_set_told;
      unfold Err; cbn [err event set_bodyReadOffset]; by rewrite He.
Qed.

(** ** The dispatcher on the package's own builder *)



(** ** [JsonResult] *)

Lemma unread_judged {B : Type} (v : option error) (res : RestResult B) :
  unread (judged v res) = "".
Proof.
  unfold unread, judged. cbn [bodyReadOffset body set_err set_bodyReadOffset].
  rewrite drop_ge; [done|]. unfold blen. lia.
Qed.

(** A second [JsonResult] on a buffered result. *)
Lemma JsonResult_again {B : Type} `{RestBuild B} (fuel : nat)
    (path : option (list string)) (res : RestResult B) (v : option error) :
  (1 ≤ fuel)%nat →
  JsonResult_of fuel path (judged v res) =
    match v with
    | Some e =>
        (told (event res) (ResponseCheck (Some e)), judged v res,
         Returns (NewJsonResultFromError (Some e)))
    | None =>
        (told (event res) (ResponseCheck (json_verdict res "")),
         judged (json_verdict res "") res,
         json_return (json_verdict res "") "" path)
    end.
Proof.
  intros Hfuel. destruct v as [e|].
  - by rewrite (JsonResult_failed fuel path (judged (Some e) res) e).
  - pose proof (blen_nonneg (list_ascii_of_string (body res))) as Hlen.
    rewrite (JsonResult_buffered fuel path (judged None res)); try done.
    all: rewrite ?unread_judged; try done.
    all: cbn [judged bodyReadOffset body set_err set_bodyReadOffset]; lia.
Qed.

Lemma CheckJsonResult_no_text (clt : AppRestBuild) :
  CheckJsonResult gjson.Get clt "" =
    Some (NewAppClientError "" "" "server return fail:").
Proof. reflexivity. Qed.

(** X10: [JsonResult] on a buffered result without an error reads what is
    left of the text, asks the builder's checker, if it has one, for its
    verdict on that text, keeps the verdict as the error of the result, and
    tells an observer the verdict once, also when the call ends in a fault.
    It returns the error result for a refusal and the text with the first
    path argument otherwise; an empty, non-nil list of path arguments faults
    on an accepted text. *)
Theorem JsonResult_judges_unread_text {B : Type} `{RestBuild B} (fuel : nat)
    (path : option (list string)) (res : RestResult B) :
  err res = None →
  (0 ≤ bodyReadOffset res ≤ blen (list_ascii_of_string (body res)))%Z →
  (1 ≤ fuel)%nat →
  (blen (list_ascii_of_string (body res)) - bodyReadOffset res ≤ 512 * Z.of_nat fuel)%Z →
  JsonResult_of fuel path res =
    (told (event res) (ResponseCheck (json_verdict res (unread res))),
     judged (json_verdict res (unread res)) res,
     json_return (json_verdict res (unread res)) (unread res) path).
Proof. apply JsonResult_buffered. Qed.

(** X11: [JsonResult] consumes the text.  Called again on the result the
    first call left, it returns the first call's refusal if there was one;
    after an accepted text it judges the empty text, since nothing is left
    to read, and the verdict of the second call replaces the first. *)
Theorem JsonResult_second_call {B : Type} `{RestBuild B} (fuel : nat)
    (path : option (list string)) (res : RestResult B) (v : option error) :
  (1 ≤ fuel)%nat →
  JsonResult_of fuel path (judged v res) =
    match v with
    | Some e =>
        (told (event res) (ResponseCheck (Some e)), judged v res,
         Returns (NewJsonResultFromError (Some e)))
    | None =>
        (told (event res) (ResponseCheck (json_verdict res "")),
         judged (json_verdict res "") res,
         json_return (json_verdict res "") "" path)
    end.
Proof. apply JsonResult_again. Qed.

(** X12: with the package's own builder, a body is accepted once.  When the
    first [JsonResult] on a buffered result accepts the text, a second one
    on the same result returns the service error for an empty body, tells
    the observer so, and leaves that error on the result. *)
Theorem JsonResult_app_accepts_once (env : Env) (fuel fuel' : nat)
    (path path' : option (list string)) (res : RestResult AppRestBuild)
    (clt : AppRestBuild) :
  build res = Some clt →
  err res = None →
  (0 ≤ bodyReadOffset res ≤ blen (list_ascii_of_string (body res)))%Z →
  (1 ≤ fuel)%nat → (1 ≤ fuel')%nat →
  (blen (list_ascii_of_string (body res)) - bodyReadOffset res ≤ 512 * Z.of_nat fuel)%Z →
  CheckJsonResult gjson.Get clt (unread res) = None →
  path ≠ Some [] →
  let refusal := NewAppClientError "" "" "server return fail:" in
  JsonResult_of (H := AppRestBuild_RestBuild gjson.Get env) fuel path res =
    (told (event res) (ResponseCheck None), judged None res,
     Returns (NewJsonResult (unread res)
                (match path with Some (p0 :: _) => p0 | _ => "" end))) ∧
  JsonResult_of (H := AppRestBuild_RestBuild gjson.Get env) fuel' path' (judged None res) =
    (told (event res) (ResponseCheck (Some refusal)), judged (Some refusal) res,
     Returns (NewJsonResultFromError (Some refusal))) ∧
  Err (judged (Some refusal) res) = Some refusal.
Proof.
  intros Hb He Hoff Hfuel Hfuel' Hroom Hok Hpath refusal.
  assert (∀ text, json_verdict (H := AppRestBuild_RestBuild gjson.Get env) res text =
                  CheckJsonResult gjson.Get clt text) as Hv.
  { intros text. unfold json_verdict. by rewrite Hb. }
  split; [|split; [|done]].
  - rewrite (JsonResult_buffered fuel path res He Hoff Hfuel Hroom).
    rewrite Hv, Hok. by destruct path as [[|p0 ps]|].
  - rewrite (JsonResult_again fuel' path' res None Hfuel').
    by rewrite Hv, CheckJsonResult_no_text.
Qed.

(** ** The logging observer *)

Lemma AppRestEvent_observe_app (ev : AppRestEvent) (t1 t2 : list Callback) :
  AppRestEvent_observe ev (t1 ++ t2) =
    ((AppRestEvent_observe (AppRestEvent_observe ev t1).1 t2).1,
     (AppRestEvent_observe ev t1).2 ++ (AppRestEvent_observe (AppRestEvent_observe ev t1).1 t2).2).
Proof.
  revert ev. induction t1 as [|cb t1 IH]; intros ev.
  - cbn. by destruct (AppRestEvent_observe ev t2).
  - cbn [app AppRestEvent_observe].
    destruct (AppRestEvent_on ev cb) as [ev' logs].
    rewrite IH. destruct (AppRestEvent_observe ev' t1) as [ev1 logs1]. cbn [fst snd].
    destruct (AppRestEvent_observe ev1 t2) as [ev2 logs2]. cbn [fst snd].
    by rewrite app_assoc.
Qed.

Lemma AppRestEvent_observe_state (ev : AppRestEvent) (t : list Callback) :
  ev_request (AppRestEvent_observe ev t).1 = ev_request ev ++ request_bytes t ∧
  ev_response (AppRestEvent_observe ev t).1 = ev_response ev ++ response_bytes t ∧
  logger (AppRestEvent_observe ev t).1 = logger ev ∧
  log_err <$> (AppRestEvent_observe ev t).2 = (if logger ev then finish_errors t else []).
Proof.
  revert ev. induction t as [|cb t IH]; intros ev.
  - cbn. rewrite !app_nil_r. by destruct (logger ev).
  - cbn [AppRestEvent_observe].
    destruct (AppRestEvent_on ev cb) as [ev' logs] eqn:Hon.
    destruct (IH ev') as (Hq & Hp & Hl & He).
    destruct (AppRestEvent_observe ev' t) as [ev'' logs']. cbn [fst snd] in *.
    rewrite Hq, Hp, Hl, fmap_app, He.
    destruct cb; cbn in Hon; injection Hon as <- <-; cbn;
      rewrite <- ?app_assoc; try done.
    by destruct (logger ev).
Qed.

(** X13: an [AppRestEvent] keeps appending: after any sequence of callbacks
    it holds the request bytes and the response bytes reported so far, after
    those it held before.  With a logger it logs once at every finish, with
    the error of that finish and with the bytes, the method, the URL, the
    status and the headers as they stand at that moment; the check of a body
    is not logged.  Without a logger nothing is logged. *)
Theorem AppRestEvent_logs_at_each_finish (ev : AppRestEvent) (t : list Callback) :
  ev_request (AppRestEvent_observe ev t).1 = ev_request ev ++ request_bytes t ∧
  ev_response (AppRestEvent_observe ev t).1 = ev_response ev ++ response_bytes t ∧
  log_err <$> (AppRestEvent_observe ev t).2 = (if logger ev then finish_errors t else []) ∧
  ∀ t1 e t2, t = t1 ++ ResponseFinish e :: t2 → logger ev = true →
    let now := (AppRestEvent_observe ev t1).1 in
    (AppRestEvent_observe ev t).2 !! length (finish_errors t1) =
      Some {| log_method := ev_method now; log_url := ev_url now;
              log_httpCode := ev_httpCode now; log_httpHeader := ev_httpHeader now;
              log_request := ev_request ev ++ request_bytes t1;
              log_response := ev_response ev ++ response_bytes t1;
              log_err := e |}.
Proof.
  destruct (AppRestEvent_observe_state ev t) as (Hq & Hp & _ & He).
  split_and!; try done.
  intros t1 e t2 -> Hlog now.
  destruct (AppRestEvent_observe_state ev t1) as (Hq1 & Hp1 & Hl1 & He1).
  rewrite Hlog in He1.
  assert (length (AppRestEvent_observe ev t1).2 = length (finish_errors t1)) as Hlen
    by (by rewrite <- He1, length_fmap).
  rewrite AppRestEvent_observe_app. cbn [snd].
  rewrite lookup_app_r by lia. rewrite Hlen, Nat.sub_diag.
  fold now. cbn [AppRestEvent_observe AppRestEvent_on].
  destruct (AppRestEvent_observe now t2) as [ev2 logs2]. cbn [fst snd].
  fold now in Hq1, Hp1, Hl1. rewrite Hl1, Hlog, Hq1, Hp1. done.
Qed.

(** ** The request reader *)

(** X14: a [RestRequestReader] over a text, read with buffers of any sizes,
    hands out the text in consecutive pieces and shows an observer exactly
    the bytes it handed out, in order, through [RequestRead] and nothing
    else; the rest of the text stays for later reads.  A reader made
    without a source answers every read with error 10 and calls nobody. *)
Theorem RestRequestReader_reports_what_it_hands_out (sizes : list nat) (unread p : bytes)
    (ev : option RestEvent) :
  (∃ t,
     drain_body sizes (NewRestRequestReader (Some unread) ev) =
       (t, NewRestRequestReader (Some (drop (sum_list sizes `min` length unread) unread)) ev,
        Returns tt) ∧
     Forall (fun cb => is_RequestRead cb = true) t ∧
     request_bytes t =
       (if has_observer ev then take (sum_list sizes `min` length unread) unread else [])) ∧
  RestRequestReader_Read p (NewRestRequestReader None ev) =
    ([], NewRestRequestReader None ev,
     Returns (0%Z, Some (NewRestClientError "10" "request reader is empty"), p)).
Proof.
  split; [|done].
  destruct (drain_body_some sizes unread ev) as (t & Hd & Ht & _ & Hb).
  by exists t.
Qed.

(** ** The format of the signature *)

Lemma Sprintf_x_length (bs : list Z) :
  String.length (fmt.Sprintf_x bs) = (2 * length bs)%nat.
Proof. induction bs as [|b bs IH]; [done|]. cbn. rewrite IH. lia. Qed.

Lemma ldigit_lower_hex (d : Z) : is_lower_hex (fmt.ldigit d).
Proof.
  unfold is_lower_hex, fmt.ldigit.
  destruct (nth_in_or_default (Z.to_nat d) (list_ascii_of_string "0123456789abcdef")
              "0"%char) as [Hin| ->].
  - by apply list_elem_of_In.
  - apply list_elem_of_In. cbn. by left.
Qed.

Lemma Sprintf_x_lower_hex (bs : list Z) :
  Forall is_lower_hex (list_ascii_of_string (fmt.Sprintf_x bs)).
Proof.
  induction bs as [|b bs IH]; [by constructor|].
  cbn [fmt.Sprintf_x list_ascii_of_string].
  apply Forall_cons; split; [apply ldigit_lower_hex|].
  apply Forall_cons; split; [apply ldigit_lower_hex|]. exact IH.
Qed.

Lemma md5_Sum_length (data : list Z) : length (md5.Sum data) = 16%nat.
Proof.
  unfold md5.Sum. destruct (md5.blocks _ _ _) as [a b c d].
  by rewrite !length_app.
Qed.

(** X15: the signature is always thirty-two lowercase hexadecimal digits,
    whatever the fields, the secret and the order in which the maps are
    visited. *)
Theorem AppRestParamSign_format (iter1 iter2 : list string)
    (version appKey method timestamp content appSecret : string) (token : option string) :
  String.length (AppRestParamSign_in iter1 iter2 version appKey method timestamp content
                   appSecret token) = 32%nat ∧
  Forall is_lower_hex
    (list_ascii_of_string (AppRestParamSign_in iter1 iter2 version appKey method timestamp
                             content appSecret token)).
Proof.
  unfold AppRestParamSign_in. split.
  - by rewrite Sprintf_x_length, md5_Sum_length.
  - apply Sprintf_x_lower_hex.
Qed.

(** ** Materializing a live result *)

(** The stream a [Read] of a live result leaves. *)
Lemma Read_live_stream {B : Type} (res : RestResult B) (r : Response) (p : bytes) :
  err res = None → (bodyReadOffset res < 0)%Z → response res = Some r →
  event res ≠ None →
  response (Read p res).1.2 =
    Some {| StatusCode := StatusCode r; Header := Header r;
            Body := (Stream_Read p (Body r)).1.2 |}.
Proof.
  intros Herr Hoff Hresp Hev. unfold Read, bind, get. cbn [fst snd].
  rewrite Herr, decide_False by lia. rewrite Hresp.
  unfold response_Body_Read, zoom, Stream_Read.
  destruct res as [ev bd rs bo off er]; cbn in Herr, Hresp, Hev; simplify_eq.
  cbn [event].
  destruct (Body r) as [|st rest]; [by destruct ev as [[|]|]|].
  destruct (decide (blen (step_data st) ≤ blen p)%Z).
  - destruct ev as [[|]|]; [| |done];
      destruct (decide (blen (step_data st) > 0)%Z);
      destruct (decide (step_err st = Some io_EOF)); reflexivity.
  - destruct ev as [[|]|]; [| |done];
      destruct (decide (blen p > 0)%Z); reflexivity.
Qed.

Lemma stream_outcome_split (st : ReadStep) (rest : Stream) (k : nat) :
  stream_outcome ({| step_data := drop k (step_data st); step_err := step_err st |} :: rest) =
    (drop k (step_data st) ++ drop (length (step_data st)) (stream_outcome (st :: rest)).1,
     (stream_outcome (st :: rest)).2).
Proof.
  cbn [stream_outcome step_err step_data]. destruct (step_err st) as [e|]; cbn [fst snd].
  - by rewrite drop_all, app_nil_r.
  - by rewrite drop_app_length.
Qed.

Lemma stream_outcome_head (st : ReadStep) (rest : Stream) :
  take (length (step_data st)) (stream_outcome (st :: rest)).1 = step_data st.
Proof.
  cbn [stream_outcome]. destruct (step_err st) as [e|]; cbn [fst snd].
  - by rewrite firstn_all.
  - by rewrite take_app_length.
Qed.

Lemma told_response_callbacks (ev : option RestEvent) (d : bytes) (n : Z) (e : option error) :
  Forall (fun cb => is_response_callback cb = true)
    ((if decide (n > 0)%Z then told ev (ResponseRead d) else []) ++
     told ev (ResponseFinish e)).
Proof.
  unfold told. apply Forall_app. split.
  - case_decide; [|done]. destruct (has_observer ev); by repeat constructor.
  - destruct (has_observer ev); by repeat constructor.
Qed.

(** [ReadAll] on a live result whose event is not nil, given reads enough
    for the stream. *)
Lemma ReadAll_live {B : Type} (n : nat) :
  ∀ (res : RestResult B) (r : Response) (acc : bytes) (fuel : nat),
    (stream_reads (Body r) ≤ n)%nat → (n < fuel)%nat →
    err res = None → (bodyReadOffset res < 0)%Z → response res = Some r →
    event res ≠ None →
    ∃ t res',
      ReadAll fuel acc res =
        (t, res', Returns (acc ++ (stream_outcome (Body r)).1,
                           (stream_outcome (Body r)).2)) ∧
      Forall (fun cb => is_response_callback cb = true) t ∧
      response_bytes t =
        (if has_observer (event res) then (stream_outcome (Body r)).1 else []) ∧
      err res' = (stream_outcome (Body r)).2 ∧
      event res' = event res ∧ build res' = build res.
Proof.
  induction n as [|n IH]; intros res r acc fuel Hn Hfuel Herr Hoff Hresp Hev;
    (destruct fuel as [|fuel]; [lia|]);
    cbn [ReadAll]; set (p := replicate 512 "000"%char);
    (assert (blen p = 512%Z) as Hp by done);
    (assert (length p = 512%nat) as Hp' by done);
    clearbody p;
    destruct (Read_live_step res r p Herr Hoff Hresp Hev)
      as (rr & b' & HRead & _ & _ & Hlen & Hcase);
    pose proof (Read_live_stream res r p Herr Hoff Hresp Hev) as Hstream;
    rewrite HRead in Hstream; cbn [fst snd response set_err set_response] in Hstream;
    injection Hstream as Hb'; unfold Stream_Read in Hb';
    unfold bind at 1; rewrite HRead; clear HRead;
    set (res1 := set_err _ _);
    rewrite Hp in *; rewrite ?Hp' in *;
    destruct (Body r) as [|st rest] eqn:HBody.
  - (* nothing left *)
    subst rr. cbn [read_err read_n delivered read_p take Z.to_nat] in *.
    rewrite decide_True by done. unfold ret. rewrite !app_nil_r.
    do 2 eexists. split; [reflexivity|]. split_and!; try done.
    + apply told_response_callbacks.
    + cbn. unfold told. by destruct (has_observer _).
  - unfold stream_reads, stream_data in Hn. cbn in Hn. lia.
  - subst rr. cbn [read_err read_n delivered read_p take Z.to_nat] in *.
    rewrite decide_True by done. unfold ret. rewrite !app_nil_r.
    do 2 eexists. split; [reflexivity|]. split_and!; try done.
    + apply told_response_callbacks.
    + cbn. unfold told. by destruct (has_observer _).
  - assert (stream_reads (st :: rest) =
            (length (step_data st) + stream_reads rest + 1)%nat) as Hm.
    { unfold stream_reads, stream_data. rewrite fmap_cons.
      change (mjoin (step_data st :: (step_data <$> rest)))
        with (step_data st ++ mjoin (step_data <$> rest)).
      rewrite length_app. cbn [length]. lia. }
    destruct (decide (blen (step_data st) ≤ 512)%Z) as [Hfit|Hbig].
    + destruct Hcase as [Hd He]. cbn [fst snd] in Hb'. subst b'.
      rewrite He, Hd in *. cbn [stream_outcome].
      destruct (step_err st) as [e|] eqn:Hst; cbn [fst snd].
      * (* the step ends the stream *)
        assert ((if decide (Some e = Some io_EOF) then None else Some e) =
                (if decide (e = io_EOF) then None else Some e)) as Hdec.
        { destruct (decide (e = io_EOF)) as [->|Hne].
          - by rewrite decide_True.
          - rewrite decide_False; [done|]. by intros [= ->]. }
        assert ((if decide (e = io_EOF)
                 then ret (acc ++ step_data st, None)
                 else ret (acc ++ step_data st, Some e)) res1 =
                ([], res1, Returns (acc ++ step_data st,
                                    if decide (e = io_EOF) then None else Some e))) as ->.
        { by destruct (decide (e = io_EOF)). }
        rewrite app_nil_r. do 2 eexists. split; [reflexivity|].
        split_and!; try done.
        -- apply told_response_callbacks.
        -- by rewrite response_bytes_step.
        -- subst res1. cbn [err set_err]. by rewrite He, Hdec.
      * (* more to come *)
        destruct (IH res1 {| StatusCode := StatusCode r; Header := Header r; Body := rest |}
                    (acc ++ step_data st) fuel)
          as (t & res' & HAll & Ht & Hbytes & Herr' & Hev' & Hbd'); try done.
        { cbn [Body]. lia. }
        { lia. }
        { subst res1. cbn [err set_err]. by rewrite He, decide_False. }
        rewrite HAll. cbn [Body] in *. rewrite <- (app_assoc acc).
        do 2 eexists. split; [reflexivity|]. split_and!; try done.
        -- apply Forall_app. split; [apply told_response_callbacks | done].
        -- rewrite response_bytes_app, response_bytes_step, Hbytes by done.
           subst res1. cbn [event set_err set_response].
           by destruct (has_observer (event res)).
    + destruct Hcase as [Hd He]. cbn [fst snd] in Hb'. subst b'.
      rewrite He in *.
      assert (512 < length (step_data st))%nat as Hlong by (unfold blen in Hbig; lia).
      destruct (IH res1 {| StatusCode := StatusCode r; Header := Header r;
                           Body := {| step_data := drop 512 (step_data st);
                                      step_err := step_err st |} :: rest |}
                  (acc ++ delivered rr) fuel)
        as (t & res' & HAll & Ht & Hbytes & Herr' & Hev' & Hbd'); try done.
      { cbn [Body]. rewrite Hm in Hn. unfold stream_reads, stream_data in *.
        rewrite fmap_cons.
        change (mjoin (?a :: ?l)) with (a ++ mjoin l).
        cbn [step_data length]. rewrite length_app, length_drop. lia. }
      { lia. }
      { subst res1. cbn [err set_err]. by rewrite He, decide_False. }
      rewrite HAll. cbn [Body] in *. rewrite stream_outcome_split in *. cbn [fst snd] in *.
      assert (delivered rr ++ drop 512 (step_data st) ++
                drop (length (step_data st)) (stream_outcome (st :: rest)).1 =
              (stream_outcome (st :: rest)).1) as Hjoin.
      { rewrite Hd, app_assoc, take_drop.
        rewrite <- (stream_outcome_head st rest) at 1. by rewrite take_drop. }
      rewrite <- (app_assoc acc), Hjoin.
      do 2 eexists. split; [reflexivity|]. split_and!; try done.
      -- apply Forall_app. split; [apply told_response_callbacks | done].
      -- rewrite response_bytes_app, response_bytes_step, Hbytes by done.
         subst res1. cbn [event set_err set_response].
         destruct (has_observer (event res)); [|done]. exact Hjoin.
Qed.

(** [JsonResult] on a live result. *)
Lemma JsonResult_live {B : Type} `{RestBuild B} (fuel : nat)
    (path : option (list string)) (res : RestResult B) (r : Response) :
  err res = None → (bodyReadOffset res < 0)%Z → response res = Some r →
  event res ≠ None →
  (stream_reads (Body r) < fuel)%nat →
  ∃ t res',
    JsonResult_of fuel path res =
      (t ++ told (event res) (ResponseCheck (live_verdict res (Body r))), res',
       match (stream_outcome (Body r)).2 with
       | Some e => Returns (NewJsonResultFromError (Some e))
       | None =>
           json_return (live_verdict res (Body r))
             (string_of_list_ascii (stream_outcome (Body r)).1) path
       end) ∧
    Forall (fun cb => is_response_callback cb = true) t ∧
    response_bytes t =
      (if has_observer (event res) then (stream_outcome (Body r)).1 else []) ∧
    Err res' = live_verdict res (Body r).
Proof.
  intros Herr Hoff Hresp Hev Hfuel.
  destruct (ReadAll_live (stream_reads (Body r)) res r [] fuel)
    as (t & res1 & HAll & Ht & Hbytes & Herr1 & Hev1 & Hbd1); try done.
  rewrite app_nil_l in HAll.
  unfold JsonResult_of, with_defer, bind at 1, get. rewrite Herr.
  unfold bind at 1. rewrite HAll. unfold bind at 1, get.
  unfold live_verdict, json_verdict, json_return, json_outcome.
  set (text := string_of_list_ascii (stream_outcome (Body r)).1).
  destruct (stream_outcome (Body r)).2 as [e|] eqn:Hout.
  - unfold bind, ret. rewrite call_if_set_told. unfold Err. rewrite Herr1, Hev1.
    exists t, res1. rewrite !app_nil_r. cbn [app]. split_and!; try done.
  - rewrite Hbd1.
    destruct (build res ≫= RestJsonResult) as [check|] eqn:Hb.
    + unfold bind, put. destruct (check text) as [e|] eqn:Hc.
      * unfold ret. rewrite call_if_set_told. cbn [event err set_err Err].
        rewrite Hev1. do 2 eexists. rewrite !app_nil_r. cbn [app].
        split_and!; try done.
      * destruct path as [[|p0 ps]|]; unfold ret, panic; rewrite call_if_set_told;
          cbn [event err set_err Err]; rewrite Hev1;
          do 2 eexists; rewrite !app_nil_r; cbn [app]; split_and!; done.
    + destruct path as [[|p0 ps]|]; unfold bind, ret, panic; rewrite call_if_set_told;
        unfold Err; rewrite Herr1, Hev1;
        do 2 eexists; rewrite ?app_nil_r; cbn [app]; split_and!; done.
Qed.

(** X16: [JsonResult] on a live result with an event reads the response to
    its end, however the bytes arrive.  The observer is shown all the bytes
    read and, last, the check with the verdict, which is also the error the
    result keeps.  When the stream breaks off with an error, that error is
    the verdict and is returned, and the checker is not asked; otherwise the
    verdict is the checker's on the whole text. *)
Theorem JsonResult_reads_live_body {B : Type} `{RestBuild B} (fuel : nat)
    (path : option (list string)) (res : RestResult B) (r : Response) :
  err res = None → (bodyReadOffset res < 0)%Z → response res = Some r →
  event res ≠ None →
  (stream_reads (Body r) < fuel)%nat →
  ∃ t res',
    JsonResult_of fuel path res =
      (t ++ told (event res) (ResponseCheck (live_verdict res (Body r))), res',
       match (stream_outcome (Body r)).2 with
       | Some e => Returns (NewJsonResultFromError (Some e))
       | None =>
           json_return (live_verdict res (Body r))
             (string_of_list_ascii (stream_outcome (Body r)).1) path
       end) ∧
    Forall (fun cb => is_response_callback cb = true) t ∧
    response_bytes t =
      (if has_observer (event res) then (stream_outcome (Body r)).1 else []) ∧
    Err res' = live_verdict res (Body r).
Proof. apply JsonResult_live. Qed.

(** ** The example of the package, end to end *)

Lemma BuildRequest_sends_what_it_signs_witness :
  let env := example_env "{}" in
  let client := example_client example_url in
  let config := product_config example_url in
  let token := build_token (Token (Api client)) in
  let dataSign := AppRestParamSign "1.0" (AppKey config) (Method example_build)
                    (time_Now env) "{}" (AppSecret config) token in
  let fields :=
    sorted_entries
      (<["sign" := dataSign]>
         (sign_reqParam "1.0" (AppKey config) (Method example_build) (time_Now env)
            "{}" token)) in
  Sorted String.le fields.*1 ∧
  ∃ rest s o,
    AppRestBuild_BuildRequest env example_build client ProductAdd (Marshals "{}")
      example_caller example_transport =
      (RequestStart (HttpMethod example_build)
         (build_apiUrl example_build (AppUrl config) (encode_pairs fields)) :: rest, s, o) ∧
    ∃ k, request_bytes rest = take k (list_ascii_of_string (encode_pairs fields)).
Proof.
  intros env client config token dataSign fields.
  destruct (BuildRequest_sends_what_it_signs env example_build client ProductAdd "{}"
              example_caller example_transport config)
    as (_ & Hsorted & rest & s & o & Hrun & _ & Hbytes);
    [reflexivity | intros e He; discriminate He | reflexivity |].
  split; [exact Hsorted|]. exists rest, s, o. split; [exact Hrun | exact Hbytes].
Defined.

Lemma BuildRequest_refused_request_witness :
  let env := example_env "{}" in
  let client := example_client "127.0.0.1:8080" in
  let config := product_config "127.0.0.1:8080" in
  let token := build_token (Token (Api client)) in
  let dataSign := AppRestParamSign "1.0" (AppKey config) (Method example_detail)
                    (time_Now env) "{}" (AppSecret config) token in
  let apiUrl :=
    build_apiUrl example_detail (AppUrl config)
      (encode_pairs (sorted_entries
         (<["sign" := dataSign]>
            (sign_reqParam "1.0" (AppKey config) (Method example_detail) (time_Now env)
               "{}" token)))) in
  let e := error_other "first path segment in URL cannot contain colon" in
  AppRestBuild_BuildRequest env example_detail client ProductDetail (Marshals "{}")
    example_caller example_transport =
    if decide (is_Some (RequestId (Api client)) ∨ HttpMethod example_detail = http_MethodPost)
    then (told (build_event config) (RequestStart (HttpMethod example_detail) apiUrl),
          example_transport, Panics nil_dereference)
    else (told (build_event config) (RequestStart (HttpMethod example_detail) apiUrl) ++
          told (build_event config) (ResponseFinish (Some e)), example_transport,
          Returns (failed_result e (build_event config))).
Proof.
  intros env client config token dataSign apiUrl e.
  apply (BuildRequest_refused_request env example_detail client ProductDetail "{}"
           example_caller example_transport config e);
    [reflexivity | intros e' He; discriminate He | intros He; discriminate He
    | vm_compute; reflexivity].
Defined.


Lemma live_reads_mirror_delivered_bytes_witness :
  let res : RestResult AppRestBuild :=
    live_result (Some example_build) example_live (Some RestEventObserver) in
  ∃ t res' rs,
    Reads [buffer 1; buffer 8; buffer 8] res = (t, res', Returns rs) ∧
    length rs = 3%nat ∧
    response_bytes t = mjoin (delivered <$> rs) ∧
    ∃ unread, mjoin (delivered <$> rs) ++ unread = stream_data (Body example_live).
Proof.
  intros res.
  apply (live_reads_mirror_delivered_bytes [buffer 1; buffer 8; buffer 8] res example_live);
    [reflexivity | reflexivity | reflexivity | intros He; discriminate He].
Defined.

Lemma live_read_error_sticks_witness :
  let res : RestResult AppRestBuild :=
    live_result (Some example_build) example_broken (Some RestEventObserver) in
  ∃ rr res',
    Read (buffer 8) res =
      ([ResponseRead (list_ascii_of_string "ab"); ResponseFinish (Some example_reset)],
       res', Returns rr) ∧
    delivered rr = list_ascii_of_string "ab" ∧ read_err rr = Some example_reset ∧
    Err res' = Some example_reset ∧
    (example_reset ≠ io_EOF →
     ∀ ps, Reads ps res' = ([], res', Returns (refused_read example_reset <$> ps))).
Proof.
  intros res.
  apply (live_read_error_sticks res example_broken (buffer 8)
           {| step_data := list_ascii_of_string "ab"; step_err := Some example_reset |}
           [] example_reset);
    [reflexivity | reflexivity | reflexivity | intros He; discriminate He
    | reflexivity | vm_compute; intros He; discriminate He | reflexivity].
Defined.


Lemma JsonResult_judges_unread_text_witness :
  JsonResult_of (H := AppRestBuild_RestBuild gjson.Get (example_env "{}")) 1 None
    example_buffered =
    (told (event example_buffered)
       (ResponseCheck (json_verdict (H := AppRestBuild_RestBuild gjson.Get (example_env "{}"))
                         example_buffered (unread example_buffered))),
     judged (json_verdict (H := AppRestBuild_RestBuild gjson.Get (example_env "{}"))
               example_buffered (unread example_buffered)) example_buffered,
     json_return (json_verdict (H := AppRestBuild_RestBuild gjson.Get (example_env "{}"))
                    example_buffered (unread example_buffered))
       (unread example_buffered) None).
Proof.
  apply (JsonResult_judges_unread_text
           (H := AppRestBuild_RestBuild gjson.Get (example_env "{}")) 1 None example_buffered);
    [reflexivity | vm_compute; split; intros He; discriminate He | lia
    | vm_compute; intros He; discriminate He].
Defined.

Lemma JsonResult_second_call_witness :
  JsonResult_of (H := AppRestBuild_RestBuild gjson.Get (example_env "{}")) 1 None
    (judged None example_buffered) =
    (told (event example_buffered)
       (ResponseCheck (json_verdict (H := AppRestBuild_RestBuild gjson.Get (example_env "{}"))
                         example_buffered "")),
     judged (json_verdict (H := AppRestBuild_RestBuild gjson.Get (example_env "{}"))
               example_buffered "") example_buffered,
     json_return (json_verdict (H := AppRestBuild_RestBuild gjson.Get (example_env "{}"))
                    example_buffered "") "" None).
Proof.
  apply (JsonResult_second_call
           (H := AppRestBuild_RestBuild gjson.Get (example_env "{}")) 1 None example_buffered
           None).
  lia.
Defined.

Lemma JsonResult_app_accepts_once_witness :
  let refusal := NewAppClientError "" "" "server return fail:" in
  JsonResult_of (H := AppRestBuild_RestBuild gjson.Get (example_env "{}")) 1 None
    example_buffered =
    (told (event example_buffered) (ResponseCheck None), judged None example_buffered,
     Returns (NewJsonResult (unread example_buffered) "")) ∧
  JsonResult_of (H := AppRestBuild_RestBuild gjson.Get (example_env "{}")) 1 (Some ["data"])
    (judged None example_buffered) =
    (told (event example_buffered) (ResponseCheck (Some refusal)),
     judged (Some refusal) example_buffered,
     Returns (NewJsonResultFromError (Some refusal))) ∧
  Err (judged (Some refusal) example_buffered) = Some refusal.
Proof.
  apply (JsonResult_app_accepts_once (example_env "{}") 1 1 None (Some ["data"])
           example_buffered example_build);
    [reflexivity | reflexivity | vm_compute; split; intros He; discriminate He
    | lia | lia | vm_compute; intros He; discriminate He | vm_compute; reflexivity
    | intros He; discriminate He].
Defined.

Lemma JsonResult_reads_live_body_witness :
  let res : RestResult AppRestBuild :=
    live_result (Some example_build) example_answer (Some RestEventObserver) in
  ∃ t res',
    JsonResult_of (H := AppRestBuild_RestBuild gjson.Get (example_env "{}")) 100
      (Some ["result"; "data"]) res =
      (t ++ [ResponseCheck None], res',
       Returns (NewJsonResult example_accepted "result")) ∧
    response_bytes t = list_ascii_of_string example_accepted ∧
    Err res' = None.
Proof.
  intros res.
  destruct (JsonResult_reads_live_body
              (H := AppRestBuild_RestBuild gjson.Get (example_env "{}")) 100
              (Some ["result"; "data"]) res example_answer)
    as (t & res' & Hrun & _ & Hbytes & Herr);
    [reflexivity | reflexivity | reflexivity | intros He; discriminate He
    | vm_compute; lia |].
  exists t, res'. split; [exact Hrun|]. split; [exact Hbytes | exact Herr].
Defined.
